(** * Discrete-time identification of Burgers' equation (PINN, implicit Runge-Kutta)

    A shallow embedding of [1d-burgers/ide_disc_burgers.py]: the class
    [PhysicsInformedNN] (constructor, derivative engine, the two stage
    predictors, loss, gradient, training driver, parameter query, error metric)
    and the part of the script that fixes the network topology.

    TensorFlow, Keras and NumPy are libraries the program calls; they are
    modelled here by what the program relies on:
    - scalars are an interface [Scalar]: the float32 arithmetic of a run is
      meant as one instance, the real numbers [R] are another, used below for
      analytic facts and for concrete runs;
    - tensors of rank 1 and 2 are lists and lists of rows, with NumPy
      broadcasting written out and shape errors raised as exceptions;
    - the gradient tape and the optimizer are an interface [Backend]. *)

From Stdlib Require Import List ZArith QArith Bool Arith Lia.
From Stdlib Require Import Reals Lra.
From Stdlib Require Import ClassicalEpsilon FunctionalExtensionality.
Import ListNotations.
Close Scope Q_scope.

Set Implicit Arguments.

(** ** Exceptions *)

Inductive exn : Type :=
| InvalidArgumentError   (* TensorFlow: incompatible shapes *)
| AttributeError         (* attribute read before [fit] created it *)
| IndexError
| ValueError
| ZeroDivisionError.

Inductive result (X : Type) : Type :=
| Ok (x : X)
| Raise (e : exn).

Arguments Ok {X} x.
Arguments Raise {X} e.

Definition bind {X Y : Type} (m : result X) (k : X -> result Y) : result Y :=
  match m with
  | Ok x => k x
  | Raise e => Raise e
  end.

Declare Scope result_scope.
Delimit Scope result_scope with result.
Notation "x <- m ;; k" := (bind m (fun x => k))
  (at level 61, m at next level, right associativity) : result_scope.
Notation "' p <- m ;; k" := (bind m (fun p => k))
  (at level 61, p pattern, m at next level, right associativity) : result_scope.
Open Scope result_scope.

(** Reading an attribute of [self] that may not exist yet. *)
Definition getattr {X : Type} (o : option X) : result X :=
  match o with
  | Some x => Ok x
  | None => Raise AttributeError
  end.

Fixpoint mapM {X Y : Type} (f : X -> result Y) (l : list X) : result (list Y) :=
  match l with
  | [] => Ok []
  | x :: l' => y <- f x ;; ys <- mapM f l' ;; Ok (y :: ys)
  end.

Fixpoint zipM {X Y Z : Type} (f : X -> Y -> result Z) (a : list X) (b : list Y)
  : result (list Z) :=
  match a, b with
  | x :: a', y :: b' => z <- f x y ;; zs <- zipM f a' b' ;; Ok (z :: zs)
  | _, _ => Ok []
  end.

(** ** Scalars *)

Class Scalar (A : Type) : Type := {
  flit : Q -> A;            (* a numeric literal of the program *)
  fadd : A -> A -> A;
  fsub : A -> A -> A;
  fmul : A -> A -> A;
  fdiv : A -> A -> A;
  fneg : A -> A;
  fexp : A -> A;            (* tf.exp *)
  ftanh : A -> A;           (* tf.nn.tanh *)
  fabs : A -> A;            (* np.abs *)
  fpi : A                   (* np.pi *)
}.

(** ** The real numbers as scalars *)

#[global] Instance R_Scalar : Scalar R := {|
  flit := Q2R;
  fadd := Rplus;
  fsub := Rminus;
  fmul := Rmult;
  fdiv := Rdiv;
  fneg := Ropp;
  fexp := exp;
  ftanh := tanh;
  fabs := Rabs;
  fpi := PI
|}.

(** ** Tensors *)

Section Tensors.
Context {A : Type} `{Scalar A}.

(** Rank-1 tensors ([lambda_1], [lambda_2], biases) and rank-2 tensors. A
    rank-2 tensor is a list of rows; it is well formed when the rows have one
    length. *)
Inductive tensor : Type :=
| Vec (v : list A)
| Mat (m : list (list A)).

Definition rows (t : tensor) : list (list A) :=
  match t with
  | Vec v => [v]
  | Mat m => m
  end.

(** [t.shape[0]] *)
Definition shape0 (t : tensor) : nat :=
  match t with
  | Vec v => length v
  | Mat m => length m
  end.

Definition width (m : list (list A)) : nat := length (hd [] m).

(** [m] has [n] rows of [k] entries. *)
Definition has_shape (n k : nat) (m : list (list A)) : Prop :=
  length m = n /\ Forall (fun r => length r = k) m.

Definition entry (m : list (list A)) (i j : nat) : A :=
  nth j (nth i m []) (flit 0).

(** *** Broadcasting

    One dimension of two operands: equal sizes are paired, a size of 1 is
    stretched, anything else is a shape error. *)
Definition bzip {X Y : Type} (f : X -> X -> result Y) (a b : list X)
  : result (list Y) :=
  match a, b with
  | [x], _ => mapM (f x) b
  | _, [y] => mapM (fun x => f x y) a
  | _, _ =>
      if Nat.eqb (length a) (length b) then zipM f a b
      else Raise InvalidArgumentError
  end.

Definition brow (f : A -> A -> A) (r s : list A) : result (list A) :=
  bzip (fun x y => Ok (f x y)) r s.

(** An elementwise binary operator ([+], [-], [*]) on tensors. A rank-1 operand
    meets a rank-2 operand as a single row. *)
Definition broadcast (f : A -> A -> A) (s t : tensor) : result tensor :=
  match s, t with
  | Vec u, Vec v => r <- brow f u v ;; Ok (Vec r)
  | _, _ => m <- bzip (brow f) (rows s) (rows t) ;; Ok (Mat m)
  end.

Definition tf_add : tensor -> tensor -> result tensor := broadcast fadd.
Definition tf_sub : tensor -> tensor -> result tensor := broadcast fsub.
Definition tf_mul : tensor -> tensor -> result tensor := broadcast fmul.

Definition tmap (f : A -> A) (t : tensor) : tensor :=
  match t with
  | Vec v => Vec (map f v)
  | Mat m => Mat (map (map f) m)
  end.

Definition tf_neg : tensor -> tensor := tmap fneg.
Definition tf_exp : tensor -> tensor := tmap fexp.
Definition tf_tanh : tensor -> tensor := tmap ftanh.
Definition tf_square : tensor -> tensor := tmap (fun a => fmul a a).

(** [c * t] for a Python scalar [c]. *)
Definition scale (c : A) : tensor -> tensor := tmap (fmul c).

Definition fsum_list (l : list A) : A := fold_left fadd l (flit 0).

(** [tf.reduce_sum]: the sum of all entries. *)
Definition tf_reduce_sum (t : tensor) : A := fsum_list (concat (rows t)).

(** [tf.ones([n, k])] *)
Definition tf_ones (n k : nat) : tensor := Mat (repeat (repeat (flit 1) k) n).

Definition column (j : nat) (m : list (list A)) : list A :=
  map (fun r => nth j r (flit 0)) m.

Definition transpose (m : list (list A)) : list (list A) :=
  map (fun j => column j m) (seq 0 (width m)).

(** [a.T] *)
Definition T (t : tensor) : tensor :=
  match t with
  | Vec v => Vec v
  | Mat m => Mat (transpose m)
  end.

Definition dot (r c : list A) : A :=
  fsum_list (map (fun p => fmul (fst p) (snd p)) (combine r c)).

Definition rectangular (m : list (list A)) : bool :=
  forallb (fun r => Nat.eqb (length r) (width m)) m.

(** [tf.matmul]: both operands of rank 2, inner dimensions equal. *)
Definition tf_matmul (a b : tensor) : result tensor :=
  match a, b with
  | Mat m, Mat n =>
      if forallb (fun r => Nat.eqb (length r) (length n)) m && rectangular n
      then Ok (Mat (map (fun r => map (dot r) (transpose n)) m))
      else Raise InvalidArgumentError
  | _, _ => Raise InvalidArgumentError
  end.

(** Entry by entry, for operands of one shape. *)
Definition zip_with {X Y Z : Type} (f : X -> Y -> Z) (a : list X) (b : list Y)
  : list Z :=
  map (fun p => f (fst p) (snd p)) (combine a b).

(** The sum of [f 0], ..., [f (n-1)], accumulated from the left. *)
Definition fsum (n : nat) (f : nat -> A) : A := fsum_list (map f (seq 0 n)).

End Tensors.

Arguments tensor A : clear implicits.

(** ** Actions on an object

    A method that mutates its object and may raise: the object is returned in
    either case, as it stands when the exception leaves the method. *)

Definition action (S X : Type) : Type := S -> S * result X.

Definition ret {S X : Type} (x : X) : action S X := fun self => (self, Ok x).

Definition raise {S X : Type} (e : exn) : action S X := fun self => (self, Raise e).

Definition bind_action {S X Y : Type} (m : action S X) (k : X -> action S Y)
  : action S Y :=
  fun self =>
    match m self with
    | (self', Ok x) => k x self'
    | (self', Raise e) => (self', Raise e)
    end.

(** Evaluate an expression that reads the object. *)
Definition read {S X : Type} (f : S -> result X) : action S X :=
  fun self => (self, f self).

(** An assignment to attributes of the object. *)
Definition update {S : Type} (f : S -> S) : action S unit :=
  fun self => (f self, Ok tt).

(** An assignment whose right-hand side may raise; nothing is assigned then. *)
Definition try_update {S : Type} (f : S -> result S) : action S unit :=
  fun self =>
    match f self with
    | Ok self' => (self', Ok tt)
    | Raise e => (self, Raise e)
    end.

Declare Scope action_scope.
Delimit Scope action_scope with action.
Notation "x <~ m ;; k" := (bind_action m (fun x => k))
  (at level 61, m at next level, right associativity) : action_scope.
Notation "' p <~ m ;; k" := (bind_action m (fun p => k))
  (at level 61, p pattern, m at next level, right associativity) : action_scope.
Notation "m ;;; k" := (bind_action m (fun _ => k))
  (at level 61, right associativity) : action_scope.

Fixpoint for_each {S : Type} (l : list Z) (body : Z -> action S unit)
  : action S unit :=
  match l with
  | [] => ret tt
  | i :: l' => bind_action (body i) (fun _ => for_each l' body)
  end.

(** [range(n)] *)
Definition range (n : Z) : list Z := map Z.of_nat (seq 0 (Z.to_nat n)).

(** ** The differentiation and optimization backend

    [tape_gradient f src og] is [tape.gradient(target, src, output_gradients=og)]
    where the tape recorded [target] as the computation [f] of the watched
    tensor [src]. [tape_gradient_vars f vars] is [tape.gradient(loss, vars)] for
    a scalar [loss] recorded as the computation [f] of the variables.
    [apply_gradients] is the optimizer's update: from its state and the pairs
    (gradient, variable) to its next state and the variables' new values. Each
    may raise. *)

Class Backend (A O : Type) : Type := {
  tape_gradient :
    (tensor A -> result (tensor A)) -> tensor A -> option (tensor A) ->
    result (tensor A);
  tape_gradient_vars :
    (list (tensor A) -> result A) -> list (tensor A) -> result (list (tensor A));
  apply_gradients :
    O -> list (tensor A * tensor A) -> result (O * list (tensor A))
}.

(** ** The model *)

Section Model.
Context {A : Type} `{Scalar A}.
Context {O : Type} `{Backend A O}.

(** *** The Keras network

    A [Dense] layer holds its kernel and its bias; [Sequential] is the list of
    layers. *)
Definition Dense : Type := (list (list A) * list A)%type.

Definition Sequential : Type := list Dense.

(** The affine part of a layer: [inputs @ kernel + bias]. *)
Definition dense_affine (l : Dense) (inputs : tensor A) : result (tensor A) :=
  z <- tf_matmul inputs (Mat (fst l)) ;;
  tf_add z (Vec (snd l)).

(** [Dense(width, activation=tf.nn.tanh)] applied to [inputs]. *)
Definition dense_call (l : Dense) (inputs : tensor A) : result (tensor A) :=
  z <- dense_affine l inputs ;;
  Ok (tf_tanh z).

Fixpoint Sequential_call (model : Sequential) (x : tensor A) : result (tensor A) :=
  match model with
  | [] => Ok x
  | l :: model' => h <- dense_call l x ;; Sequential_call model' h
  end.

(** [model.trainable_variables]: kernel and bias of each layer, in order; a
    fresh list at every read. *)
Definition trainable_variables (model : Sequential) : list (tensor A) :=
  flat_map (fun l : Dense => [Mat (fst l); Vec (snd l)]) model.

(** A kernel of shape [(fan_in, fan_out)] drawn by the initializer; [sample]
    stands for the random draw of each entry. *)
Definition glorot_normal (sample : nat -> nat -> A) (fan_in fan_out : nat)
  : list (list A) :=
  map (fun i => map (fun j => sample i j) (seq 0 fan_out)) (seq 0 fan_in).

(** The loop [for width in layers[1:]: U_model.add(Dense(width, ...))]; the
    first argument is the width of what is built so far, [k] numbers the layers.
    Biases start at zero (Keras' default). *)
Fixpoint add_layers (sample : nat -> nat -> nat -> A) (k input_dim : nat)
    (widths : list nat) : Sequential :=
  match widths with
  | [] => []
  | width :: widths' =>
      (glorot_normal (sample k) input_dim width, repeat (flit 0) width)
        :: add_layers sample (S k) width widths'
  end.

(** The kernels and biases of [model] have the shapes of a network that takes
    [input_dim] features through layers of the given [widths]. *)
Fixpoint weights_shape (input_dim : nat) (widths : list nat) (model : Sequential)
  : Prop :=
  match widths, model with
  | [], [] => True
  | w :: widths', l :: model' =>
      has_shape input_dim w (fst l) /\ length (snd l) = w
      /\ weights_shape w widths' model'
  | _, _ => False
  end.

(** No layer feeding another one has width zero. *)
Fixpoint inner_positive (widths : list nat) : Prop :=
  match widths with
  | [] => True
  | [_] => True
  | w :: widths' => 0 < w /\ inner_positive widths'
  end.

(** *** The object *)

Inductive log_event : Type :=
| log_train_start
| log_train_epoch (epoch : Z) (loss_value l1 l2 : A)
| log_train_end (epochs : Z).

(** Calls made to the backend, kept as a history so that their number and
    arguments can be stated. *)
Inductive call : Type :=
| grad_call (x_0 u_0 x_1 u_1 : tensor A)
| apply_call (grads vars : list (tensor A)).

Record PhysicsInformedNN : Type := mkPINN {
  lb : tensor A;
  ub : tensor A;
  dt : A;
  q : Z;
  IRK_alpha : tensor A;
  IRK_beta : tensor A;
  U_model : Sequential;
  optimizer : O;
  logger : list log_event;
  calls : list call;
  (* attributes created by [fit] *)
  x_0 : option (tensor A);
  u_0 : option (tensor A);
  x_1 : option (tensor A);
  u_1 : option (tensor A);
  lambda_1 : option (tensor A);
  lambda_2 : option (tensor A);
  dummy_x_0 : option (tensor A);
  dummy_x_1 : option (tensor A)
}.

Definition __init__ (sample : nat -> nat -> nat -> A)
    (layers : list nat) (optimizer : O) (logger : list log_event) (dt : A)
    (lb ub : tensor A) (q : Z) (IRK_alpha IRK_beta : tensor A)
  : result PhysicsInformedNN :=
  match layers with
  | [] => Raise IndexError     (* layers[0] *)
  | input_dim :: widths =>
      Ok {| lb := lb; ub := ub; dt := dt;
            q := Z.max q 1;
            IRK_alpha := IRK_alpha; IRK_beta := IRK_beta;
            U_model := add_layers sample 0 input_dim widths;
            optimizer := optimizer; logger := logger; calls := [];
            x_0 := None; u_0 := None; x_1 := None; u_1 := None;
            lambda_1 := None; lambda_2 := None;
            dummy_x_0 := None; dummy_x_1 := None |}
  end.

(** The script's [layers = [1, 50, 50, 50, 0]] followed by [layers[-1] = q]. *)
Definition set_last (l : list nat) (v : nat) : list nat :=
  match l with
  | [] => []
  | _ => removelast l ++ [v]
  end.

Definition layers (q : nat) : list nat := set_last [1; 50; 50; 50; 0]%nat q.

(** *** The derivative engine

    The tape records [U = self.U_model(x)]; each later quantity is the gradient
    of the one before, with respect to [x] (seeded by [dummy]) or to [dummy].
    The argument [U] is overwritten at once, as in the source. *)
Definition __autograd (self : PhysicsInformedNN) (U x dummy : tensor A)
  : result (tensor A * tensor A) :=
  let U := fun x => Sequential_call (U_model self) x in
  let g_U := fun x dummy => tape_gradient U x (Some dummy) in
  let U_x := fun x dummy => tape_gradient (fun dummy => g_U x dummy) dummy None in
  let g_U_x := fun x dummy => tape_gradient (fun x => U_x x dummy) x (Some dummy) in
  let U_xx := fun x dummy => tape_gradient (fun dummy => g_U_x x dummy) dummy None in
  _ <- U x ;;
  _ <- g_U x dummy ;;
  U_x_val <- U_x x dummy ;;
  _ <- g_U_x x dummy ;;
  U_xx_val <- U_xx x dummy ;;
  Ok (U_x_val, U_xx_val).

(** *** The stage predictors *)

(** [N = l1*U*U_x - l2*U_xx] *)
Definition N_0 (l1 l2 U U_x U_xx : tensor A) : result (tensor A) :=
  a <- tf_mul l1 U ;;
  b <- tf_mul a U_x ;;
  c <- tf_mul l2 U_xx ;;
  tf_sub b c.

(** [N = -l1*U*U_x + l2*U_xx] *)
Definition N_1 (l1 l2 U U_x U_xx : tensor A) : result (tensor A) :=
  a <- tf_mul (tf_neg l1) U ;;
  b <- tf_mul a U_x ;;
  c <- tf_mul l2 U_xx ;;
  tf_add b c.

Definition U_0_model (self : PhysicsInformedNN) (x : tensor A) : result (tensor A) :=
  U <- Sequential_call (U_model self) x ;;
  dummy <- getattr (dummy_x_0 self) ;;
  '(U_x, U_xx) <- __autograd self U x dummy ;;
  l1 <- getattr (lambda_1 self) ;;
  lam2 <- getattr (lambda_2 self) ;;
  let l2 := tf_exp lam2 in
  N <- N_0 l1 l2 U U_x U_xx ;;
  m <- tf_matmul N (T (IRK_alpha self)) ;;
  tf_add U (scale (dt self) m).

Definition U_1_model (self : PhysicsInformedNN) (x : tensor A) : result (tensor A) :=
  U <- Sequential_call (U_model self) x ;;
  dummy <- getattr (dummy_x_1 self) ;;
  '(U_x, U_xx) <- __autograd self U x dummy ;;
  l1 <- getattr (lambda_1 self) ;;
  lam2 <- getattr (lambda_2 self) ;;
  let l2 := tf_exp lam2 in
  N <- N_1 l1 l2 U U_x U_xx ;;
  d <- tf_sub (IRK_beta self) (IRK_alpha self) ;;
  m <- tf_matmul N (T d) ;;
  tf_add U (scale (dt self) m).

(** *** Loss and gradient *)

Definition __loss (self : PhysicsInformedNN) (x_0 u_0 x_1 u_1 : tensor A)
  : result A :=
  u_0_pred <- U_0_model self x_0 ;;
  u_1_pred <- U_1_model self x_1 ;;
  d_0 <- tf_sub u_0_pred u_0 ;;
  let s_0 := tf_reduce_sum (tf_square d_0) in
  d_1 <- tf_sub u_1_pred u_1 ;;
  let s_1 := tf_reduce_sum (tf_square d_1) in
  Ok (fadd s_0 s_1).

Definition __wrap_training_variables (self : PhysicsInformedNN)
  : result (list (tensor A)) :=
  let var := trainable_variables (U_model self) in
  l1 <- getattr (lambda_1 self) ;;
  l2 <- getattr (lambda_2 self) ;;
  Ok (var ++ [l1; l2]).

(** The variables are objects shared by the model and the list handed to the
    tape and to the optimizer. [assign_variables] is the way back: the object
    whose variables hold the given values, in the order of
    [__wrap_training_variables]. *)
Fixpoint assign_weights (model : Sequential) (vals : list (tensor A))
  : result (Sequential * list (tensor A)) :=
  match model with
  | [] => Ok ([], vals)
  | _ :: model' =>
      match vals with
      | Mat kernel :: Vec bias :: vals' =>
          '(r, rest) <- assign_weights model' vals' ;;
          Ok ((kernel, bias) :: r, rest)
      | _ => Raise ValueError
      end
  end.

Definition with_variables (self : PhysicsInformedNN) (model : Sequential)
    (l1 l2 : tensor A) : PhysicsInformedNN :=
  {| lb := lb self; ub := ub self; dt := dt self; q := q self;
     IRK_alpha := IRK_alpha self; IRK_beta := IRK_beta self;
     U_model := model;
     optimizer := optimizer self; logger := logger self; calls := calls self;
     x_0 := x_0 self; u_0 := u_0 self; x_1 := x_1 self; u_1 := u_1 self;
     lambda_1 := Some l1; lambda_2 := Some l2;
     dummy_x_0 := dummy_x_0 self; dummy_x_1 := dummy_x_1 self |}.

Definition assign_variables (self : PhysicsInformedNN) (vals : list (tensor A))
  : result PhysicsInformedNN :=
  '(model, rest) <- assign_weights (U_model self) vals ;;
  match rest with
  | [l1; l2] => Ok (with_variables self model l1 l2)
  | _ => Raise ValueError
  end.

Definition __grad (self : PhysicsInformedNN) (x_0 u_0 x_1 u_1 : tensor A)
  : result (A * list (tensor A)) :=
  loss_value <- __loss self x_0 u_0 x_1 u_1 ;;
  var <- __wrap_training_variables self ;;
  grads <- tape_gradient_vars
             (fun vals => self' <- assign_variables self vals ;;
                          __loss self' x_0 u_0 x_1 u_1)
             var ;;
  Ok (loss_value, grads).

(** *** Parameter query, prediction, error metric *)

(** [get_params(numpy=False)] *)
Definition get_params (self : PhysicsInformedNN) : result (tensor A * tensor A) :=
  l1 <- getattr (lambda_1 self) ;;
  lam2 <- getattr (lambda_2 self) ;;
  Ok (l1, tf_exp lam2).

(** [t.numpy()[0]] for the one-entry tensors [lambda_1], [lambda_2] *)
Definition numpy_0 (t : tensor A) : result A :=
  match t with
  | Vec (a :: _) => Ok a
  | Vec [] => Raise IndexError
  | Mat _ => Raise ValueError
  end.

(** [get_params(numpy=True)] *)
Definition get_params_numpy (self : PhysicsInformedNN) : result (A * A) :=
  '(l1, l2) <- get_params self ;;
  a <- numpy_0 l1 ;;
  b <- numpy_0 l2 ;;
  Ok (a, b).

Definition error (x_star u_star : A) : A :=
  let error_lambda_1 :=
    fmul (fdiv (fabs (fsub x_star (flit 1))) (flit 1)) (flit 100) in
  let nu := fdiv (flit (1 # 100)) fpi in
  let error_lambda_2 := fmul (fdiv (fabs (fsub u_star nu)) nu) (flit 100) in
  error_lambda_1.

(** What the last line of [error] leaves out. *)
Definition error_lambda_2 (u_star : A) : A :=
  let nu := fdiv (flit (1 # 100)) fpi in
  fmul (fdiv (fabs (fsub u_star nu)) nu) (flit 100).

Definition predict (self : PhysicsInformedNN) (x_star : tensor A)
  : result (tensor A * tensor A) :=
  U_0_star <- U_0_model self x_star ;;
  U_1_star <- U_1_model self x_star ;;
  Ok (U_0_star, U_1_star).

(** *** The training driver *)

Definition log (e : log_event) (self : PhysicsInformedNN) : PhysicsInformedNN :=
  {| lb := lb self; ub := ub self; dt := dt self; q := q self;
     IRK_alpha := IRK_alpha self; IRK_beta := IRK_beta self;
     U_model := U_model self;
     optimizer := optimizer self; logger := logger self ++ [e];
     calls := calls self;
     x_0 := x_0 self; u_0 := u_0 self; x_1 := x_1 self; u_1 := u_1 self;
     lambda_1 := lambda_1 self; lambda_2 := lambda_2 self;
     dummy_x_0 := dummy_x_0 self; dummy_x_1 := dummy_x_1 self |}.

Definition record_call (c : call) (self : PhysicsInformedNN) : PhysicsInformedNN :=
  {| lb := lb self; ub := ub self; dt := dt self; q := q self;
     IRK_alpha := IRK_alpha self; IRK_beta := IRK_beta self;
     U_model := U_model self;
     optimizer := optimizer self; logger := logger self;
     calls := calls self ++ [c];
     x_0 := x_0 self; u_0 := u_0 self; x_1 := x_1 self; u_1 := u_1 self;
     lambda_1 := lambda_1 self; lambda_2 := lambda_2 self;
     dummy_x_0 := dummy_x_0 self; dummy_x_1 := dummy_x_1 self |}.

Definition set_optimizer (o : O) (self : PhysicsInformedNN) : PhysicsInformedNN :=
  {| lb := lb self; ub := ub self; dt := dt self; q := q self;
     IRK_alpha := IRK_alpha self; IRK_beta := IRK_beta self;
     U_model := U_model self;
     optimizer := o; logger := logger self; calls := calls self;
     x_0 := x_0 self; u_0 := u_0 self; x_1 := x_1 self; u_1 := u_1 self;
     lambda_1 := lambda_1 self; lambda_2 := lambda_2 self;
     dummy_x_0 := dummy_x_0 self; dummy_x_1 := dummy_x_1 self |}.

(** Lines 137-147 of [fit]: the tensors, the two variables, the dummy seeds. *)
Definition create_tensors (x_0 u_0 x_1 u_1 : tensor A) (self : PhysicsInformedNN)
  : PhysicsInformedNN :=
  {| lb := lb self; ub := ub self; dt := dt self; q := q self;
     IRK_alpha := IRK_alpha self; IRK_beta := IRK_beta self;
     U_model := U_model self;
     optimizer := optimizer self; logger := logger self; calls := calls self;
     x_0 := Some x_0; u_0 := Some u_0; x_1 := Some x_1; u_1 := Some u_1;
     lambda_1 := Some (Vec [flit 0]);
     lambda_2 := Some (Vec [flit (-6)]);
     dummy_x_0 := Some (tf_ones (shape0 x_0) (Z.to_nat (q self)));
     dummy_x_1 := Some (tf_ones (shape0 x_1) (Z.to_nat (q self))) |}.

Open Scope action_scope.

(** [self.optimizer.apply_gradients(zip(grads, self.__wrap_training_variables()))]:
    the optimizer keeps its new state and assigns the new values to the
    variables it was given (those [zip] paired with a gradient). *)
Definition optimizer_apply_gradients (grads : list (tensor A))
  : action PhysicsInformedNN unit :=
  var <~ read __wrap_training_variables ;;
  update (record_call (apply_call grads var)) ;;;
  ' (o, vals) <~ read (fun self =>
                         apply_gradients (optimizer self) (combine grads var)) ;;
  update (set_optimizer o) ;;;
  try_update (fun self =>
                assign_variables self (vals ++ skipn (length vals) var)).

(** The body of the training loop. *)
Definition epoch_body (log_epochs epoch : Z) : action PhysicsInformedNN unit :=
  x_0 <~ read (fun self => getattr (x_0 self)) ;;
  u_0 <~ read (fun self => getattr (u_0 self)) ;;
  x_1 <~ read (fun self => getattr (x_1 self)) ;;
  u_1 <~ read (fun self => getattr (u_1 self)) ;;
  update (record_call (grad_call x_0 u_0 x_1 u_1)) ;;;
  ' (loss_value, grads) <~ read (fun self => __grad self x_0 u_0 x_1 u_1) ;;
  optimizer_apply_gradients grads ;;;
  if Z.eqb log_epochs 0 then raise ZeroDivisionError
  else if Z.eqb (epoch mod log_epochs) 0 then
    ' (l1, l2) <~ read get_params_numpy ;;
    update (log (log_train_epoch epoch loss_value l1 l2))
  else ret tt.

Definition fit (x_0 u_0 x_1 u_1 : tensor A) (epochs log_epochs : Z)
  : action PhysicsInformedNN unit :=
  update (log log_train_start) ;;;
  update (create_tensors x_0 u_0 x_1 u_1) ;;;
  for_each (range epochs) (epoch_body log_epochs) ;;;
  update (log (log_train_end epochs)).

Close Scope action_scope.

(** *** Vocabulary for the statements below *)

(** The stage predictors as the specification writes them, entry by entry.
    [l2] is the diffusion coefficient [exp(lambda_2)]. *)
Definition spec_N_0 (l1 l2 : A) (U U_x U_xx : list (list A)) (i j : nat) : A :=
  fsub (fmul (fmul l1 (entry U i j)) (entry U_x i j)) (fmul l2 (entry U_xx i j)).

Definition spec_N_1 (l1 l2 : A) (U U_x U_xx : list (list A)) (i j : nat) : A :=
  fadd (fmul (fmul (fneg l1) (entry U i j)) (entry U_x i j))
       (fmul l2 (entry U_xx i j)).

(** Entry (i, j) of [U + dt * (N @ a^T)] for a [k x k] tableau [a]:
    the product with the transpose pairs row [i] of [N] with row [j] of [a]. *)
Definition spec_stage (dt : A) (k : nat) (U : list (list A))
    (N : nat -> nat -> A) (a : list (list A)) (i j : nat) : A :=
  fadd (entry U i j) (fmul dt (fsum k (fun l => fmul (N i l) (entry a j l)))).

(** What [fit] sets up once and the constructor's data: everything but the
    variables, the optimizer state, the log and the call history. *)
Definition same_data (s s' : PhysicsInformedNN) : Prop :=
  q s' = q s /\ dt s' = dt s /\ lb s' = lb s /\ ub s' = ub s
  /\ IRK_alpha s' = IRK_alpha s /\ IRK_beta s' = IRK_beta s
  /\ x_0 s' = x_0 s /\ u_0 s' = u_0 s /\ x_1 s' = x_1 s /\ u_1 s' = u_1 s
  /\ dummy_x_0 s' = dummy_x_0 s /\ dummy_x_1 s' = dummy_x_1 s.

(** The objects reached from [self] by calls of [fit], whether they return or
    raise. *)
Inductive fitted (self : PhysicsInformedNN) : PhysicsInformedNN -> Prop :=
| fitted_refl : fitted self self
| fitted_fit (s s' : PhysicsInformedNN) (x_0 u_0 x_1 u_1 : tensor A)
    (epochs log_epochs : Z) (r : result unit) :
    fitted self s ->
    fit x_0 u_0 x_1 u_1 epochs log_epochs s = (s', r) ->
    fitted self s'.

Definition is_grad_call (c : call) : bool :=
  match c with
  | grad_call _ _ _ _ => true
  | apply_call _ _ => false
  end.

Definition is_apply_call (c : call) : bool :=
  match c with
  | grad_call _ _ _ _ => false
  | apply_call _ _ => true
  end.

(** The history after a step is the history before it and the calls [cs] of
    the step: at most [n] gradient computations and no more updates than
    gradient computations. *)
Definition extends_calls (s s' : PhysicsInformedNN) (n : nat) (cs : list call)
  : Prop :=
  calls s' = calls s ++ cs
  /\ (length (filter is_apply_call cs) <= length (filter is_grad_call cs))%nat
  /\ (length (filter is_grad_call cs) <= n)%nat.

(** The two backend calls of one epoch on the data [x_0], [u_0], [x_1], [u_1]:
    one gradient over all of it, then one update of all variables: the
    network's, then [lambda_1], then [lambda_2]. *)
Definition epoch_calls (x_0 u_0 x_1 u_1 : tensor A) (cs : list call) : Prop :=
  exists (grads : list (tensor A)) (model : Sequential) (l1 l2 : tensor A),
    cs = [grad_call x_0 u_0 x_1 u_1;
          apply_call grads (trainable_variables model ++ [l1; l2])].

(** The calls of [n] epochs in a row. *)
Fixpoint training_calls (x_0 u_0 x_1 u_1 : tensor A) (n : nat) (cs : list call)
  : Prop :=
  match n with
  | 0%nat => cs = []
  | S n' =>
      exists c1 cs', cs = c1 ++ cs' /\ epoch_calls x_0 u_0 x_1 u_1 c1
                     /\ training_calls x_0 u_0 x_1 u_1 n' cs'
  end.

(** Broadcasting, one dimension at a time: sizes [n] and [n'] go together when
    they are equal or one of them is 1; the result has the size that is not 1;
    item [i] of the result comes from item [i] of an operand of that size and
    from the only item of an operand of size 1. *)
Definition compatible (n n' : nat) : Prop :=
  n' = n \/ n' = 1%nat \/ n = 1%nat.

Definition bdim (n n' : nat) : nat := if Nat.eqb n 1 then n' else n.

Definition bidx (n N i : nat) : nat := if Nat.eqb n N then i else 0%nat.

(** The sum of the squared elementwise differences between a prediction of
    [n] rows and [k] columns and observed values of [n'] rows and [k']
    columns, each entry of the prediction meeting the observed value that
    broadcasting pairs it with. *)
Definition spec_squared_error (n k n' k' : nat) (pred obs : list (list A)) : A :=
  let N := bdim n n' in
  let K := bdim k k' in
  fsum_list
    (flat_map
       (fun i =>
          map (fun j =>
                 let d := fsub (entry pred (bidx n N i) (bidx k K j))
                               (entry obs (bidx n' N i) (bidx k' K j)) in
                 fmul d d)
              (seq 0 K))
       (seq 0 N)).

(** Two objects with the same data, network, variables and optimizer state:
    they differ at most in the log and in the call history. *)
Definition same_state (s t : PhysicsInformedNN) : Prop :=
  same_data s t
  /\ U_model t = U_model s /\ optimizer t = optimizer s
  /\ lambda_1 t = lambda_1 s /\ lambda_2 t = lambda_2 s.

(** One epoch in the specification's words: one gradient computation over the
    whole of the stored data, then one optimizer update of the network's
    variables and both lambdas together. The result is the object holding the
    optimizer's new state and the variables' new values, with the two backend
    calls made: the gradient handed to the optimizer is the one just computed,
    the variables are those of the object. Nothing is logged. *)
Definition spec_epoch (self : PhysicsInformedNN)
  : result (PhysicsInformedNN * list call) :=
  x_0 <- getattr (x_0 self) ;;
  u_0 <- getattr (u_0 self) ;;
  x_1 <- getattr (x_1 self) ;;
  u_1 <- getattr (u_1 self) ;;
  ' (_, grads) <- __grad self x_0 u_0 x_1 u_1 ;;
  var <- __wrap_training_variables self ;;
  ' (o, vals) <- apply_gradients (optimizer self) (combine grads var) ;;
  self' <- assign_variables (set_optimizer o self)
                            (vals ++ skipn (length vals) var) ;;
  Ok (self', [grad_call x_0 u_0 x_1 u_1; apply_call grads var]).

(** [n] such epochs in a row, each starting from the variables and the
    optimizer state the one before has left. *)
Fixpoint spec_training (n : nat) (self : PhysicsInformedNN)
  : result (PhysicsInformedNN * list call) :=
  match n with
  | 0%nat => Ok (self, [])
  | S n' =>
      ' (self1, cs1) <- spec_epoch self ;;
      ' (self2, cs2) <- spec_training n' self1 ;;
      Ok (self2, cs1 ++ cs2)
  end.

(** A progress report of the epoch [epoch]. *)
Definition reports (epoch : Z) (ev : log_event) : Prop :=
  exists loss_value l1 l2, ev = log_train_epoch epoch loss_value l1 l2.

(** The epochs of [range(epochs)] at which [epoch % log_epochs == 0]. *)
Definition report_epochs (epochs log_epochs : Z) : list Z :=
  filter (fun epoch => Z.eqb (epoch mod log_epochs) 0) (range epochs).

End Model.

Arguments Dense A : clear implicits.
Arguments Sequential A : clear implicits.
Arguments log_event A : clear implicits.
Arguments call A : clear implicits.
Arguments PhysicsInformedNN A O : clear implicits.

(** ** A small instance over the reals

    Concrete data on which the definitions are run. The tape is one on which
    every recorded target is constant, so every gradient it returns is zero;
    the optimizer is plain gradient descent with step 1. *)

Definition zeros_like (t : tensor R) : tensor R := tmap (fun _ => 0%R) t.

Definition descent (p : tensor R * tensor R) : tensor R :=
  match p with
  | (Vec g, Vec v) => Vec (zip_with Rminus v g)
  | (Mat g, Mat v) => Mat (zip_with (zip_with Rminus) v g)
  | (_, v) => v
  end.

#[global] Instance constant_tape : Backend R unit := {|
  tape_gradient := fun _ src _ => Ok (zeros_like src);
  tape_gradient_vars := fun _ vars => Ok (map zeros_like vars);
  apply_gradients := fun o gv => Ok (o, map descent gv)
|}.

(** A network of one layer, from one input to two stage values. *)
Definition demo_pinn : PhysicsInformedNN R unit :=
  {| lb := Vec [(-1)%R]; ub := Vec [1%R]; dt := (/ 2)%R; q := 2;
     IRK_alpha := Mat [[1%R; 0%R]; [1%R; 1%R]];
     IRK_beta := Mat [[1%R; 1%R]; [2%R; 1%R]];
     U_model := [([[1%R; (-1)%R]], [0%R; 0%R])];
     optimizer := tt; logger := []; calls := [];
     x_0 := None; u_0 := None; x_1 := None; u_1 := None;
     lambda_1 := None; lambda_2 := None;
     dummy_x_0 := None; dummy_x_1 := None |}.

Definition demo_x : tensor R := Mat [[0%R]; [1%R]].

Definition demo_u : tensor R := Mat [[0%R; 0%R]; [0%R; 0%R]].

(** [demo_pinn] with the attributes [fit] creates. *)
Definition demo_ready : PhysicsInformedNN R unit :=
  create_tensors demo_x demo_u demo_x demo_u demo_pinn.

(** A draw for the initializer. *)
Definition demo_sample (k i j : nat) : R := (INR (k + i + j) / 100)%R.

(** ** Gradients over the reals

    What it means for a list of tensors to be the gradient of a scalar
    computation [f] of a list of variables, and the law of a tape that returns
    nothing else. *)

(** The list [l] with item [n] replaced by [x]. *)
Definition list_set {X : Type} (l : list X) (n : nat) (x : X) : list X :=
  firstn n l ++ match skipn n l with
                | [] => []
                | _ :: r => x :: r
                end.

Definition tensor_get (t : tensor R) (i j : nat) : R := entry (rows t) i j.

(** The tensor [t] with entry (i, j) replaced by [v]; a rank-1 tensor is its
    single row. *)
Definition tensor_set (t : tensor R) (i j : nat) (v : R) : tensor R :=
  match t with
  | Vec u => Vec (list_set u j v)
  | Mat m => Mat (list_set m i (list_set (nth i m []) j v))
  end.

(** Entry (i, j) of variable number [p] exists. *)
Definition position (vars : list (tensor R)) (p i j : nat) : Prop :=
  (p < length vars)%nat
  /\ (i < length (rows (nth p vars (Vec []))))%nat
  /\ (j < length (nth i (rows (nth p vars (Vec []))) []))%nat.

(** [grads] is the gradient of [f] at [vars]: one tensor per variable, and for
    every entry of every variable the entry of [grads] at the same place is
    the derivative, at the entry's value, of [f] as a function of that entry
    alone, the others being held at their values. *)
Definition is_gradient (f : list (tensor R) -> result R)
    (vars grads : list (tensor R)) : Prop :=
  length grads = length vars
  /\ forall p i j : nat,
       position vars p i j ->
       exists F : R -> R,
         (forall v : R,
             f (list_set vars p (tensor_set (nth p vars (Vec [])) i j v))
             = Ok (F v))
         /\ derivable_pt_lim F (tensor_get (nth p vars (Vec [])) i j)
                               (tensor_get (nth p grads (Vec [])) i j).

(** The law of the tape: what [tape.gradient(loss, vars)] returns is the
    gradient of the recorded computation at the variables' values. *)
Definition lawful_tape {O : Type} (B : Backend R O) : Prop :=
  forall (f : list (tensor R) -> result R) (vars grads : list (tensor R)),
    tape_gradient_vars f vars = Ok grads -> is_gradient f vars grads.

(** A tape that keeps the law: it answers exactly where the gradient exists,
    with the gradient. Its derivatives with respect to the input are those of
    [constant_tape], and so is its optimizer. *)
Definition exact_gradient (f : list (tensor R) -> result R)
    (vars : list (tensor R)) : result (list (tensor R)) :=
  match excluded_middle_informative (exists g, is_gradient f vars g) with
  | left Hex => Ok (proj1_sig (constructive_indefinite_description _ Hex))
  | right _ => Raise InvalidArgumentError
  end.

Definition exact_tape : Backend R unit := {|
  tape_gradient := fun _ src _ => Ok (zeros_like src);
  tape_gradient_vars := exact_gradient;
  apply_gradients := fun o gv => Ok (o, map descent gv)
|}.

(** A column of observed values, one per point of [demo_x]. *)
Definition demo_column : tensor R := Mat [[0%R]; [1%R]].

(** Observed values that the network of [demo_pinn] fits exactly: what the two
    predictors return on [demo_x] at the variables' initial values. *)
Definition fitted_u_0 : tensor R :=
  match @U_0_model R _ unit exact_tape demo_ready demo_x with
  | Ok t => t
  | Raise _ => Mat []
  end.

Definition fitted_u_1 : tensor R :=
  match @U_1_model R _ unit exact_tape demo_ready demo_x with
  | Ok t => t
  | Raise _ => Mat []
  end.

Definition fitted_ready : PhysicsInformedNN R unit :=
  create_tensors demo_x fitted_u_0 demo_x fitted_u_1 demo_pinn.

(** [f] has a derivative at [x]. *)
Definition smooth (f : R -> R) (x : R) : Prop :=
  exists l : R, derivable_pt_lim f x l.

(** * Facts about tensors *)

Section TensorFacts.
Context {A : Type} `{Scalar A}.

Lemma mapM_pure {X Y : Type} (g : X -> Y) (l : list X) :
  mapM (fun x => Ok (g x)) l = Ok (map g l).
Proof.
  induction l as [|x l IH]; simpl; [reflexivity|].
  rewrite IH. reflexivity.
Qed.

Lemma mapM_ext_in {X Y : Type} (f g : X -> result Y) (l : list X) :
  (forall x, In x l -> f x = g x) -> mapM f l = mapM g l.
Proof.
  induction l as [|x l IH]; simpl; intros Hfg; [reflexivity|].
  rewrite Hfg by (left; reflexivity).
  rewrite IH by (intros y Hy; apply Hfg; right; exact Hy).
  reflexivity.
Qed.

Lemma zipM_pure {X Y Z : Type} (f : X -> Y -> result Z) (g : X -> Y -> Z)
    (a : list X) (b : list Y) :
  (forall x y, In (x, y) (combine a b) -> f x y = Ok (g x y)) ->
  zipM f a b = Ok (zip_with g a b).
Proof.
  revert b. induction a as [|x a IH]; intros [|y b] Hfg; simpl; try reflexivity.
  rewrite Hfg by (left; reflexivity). simpl.
  rewrite (IH b) by (intros x' y' Hin; apply Hfg; right; exact Hin).
  reflexivity.
Qed.

Lemma zip_with_length {X Y Z : Type} (f : X -> Y -> Z) (a : list X) (b : list Y) :
  length a = length b -> length (zip_with f a b) = length a.
Proof.
  intros Hab. unfold zip_with. rewrite length_map, length_combine. lia.
Qed.

Lemma zip_with_nth {X Y Z : Type} (f : X -> Y -> Z) (a : list X) (b : list Y)
    (i : nat) (dx : X) (dy : Y) (dz : Z) :
  i < length a -> length a = length b ->
  nth i (zip_with f a b) dz = f (nth i a dx) (nth i b dy).
Proof.
  revert b i. induction a as [|x a IH]; intros [|y b] i Hi Hab; simpl in *;
    try lia.
  destruct i as [|i]; [reflexivity|].
  apply IH; lia.
Qed.

Lemma map_nth_lt {X Y : Type} (f : X -> Y) (l : list X) (i : nat) (dx : X) (dy : Y) :
  i < length l -> nth i (map f l) dy = f (nth i l dx).
Proof.
  intros Hi. rewrite (nth_indep _ dy (f dx)) by (rewrite length_map; exact Hi).
  apply map_nth.
Qed.

(** Broadcasting two rows of one length pairs their entries. *)
Lemma brow_same (f : A -> A -> A) (r s : list A) :
  length r = length s -> brow f r s = Ok (zip_with f r s).
Proof.
  intros Hrs. unfold brow, bzip.
  destruct r as [|x [|x' r]]; destruct s as [|y [|y' s]]; simpl in *;
    try discriminate; try reflexivity.
  - injection Hrs as Hrs. rewrite Hrs, Nat.eqb_refl.
    erewrite zipM_pure by (intros; reflexivity). reflexivity.
Qed.

(** A one-entry row is stretched. *)
Lemma brow_scalar (f : A -> A -> A) (a : A) (s : list A) :
  brow f [a] s = Ok (map (f a) s).
Proof. unfold brow, bzip. apply mapM_pure. Qed.

Lemma bzip_same {X Y : Type} (f : X -> X -> result Y) (g : X -> X -> Y)
    (a b : list X) :
  length a = length b ->
  (forall x y, In (x, y) (combine a b) -> f x y = Ok (g x y)) ->
  bzip f a b = Ok (zip_with g a b).
Proof.
  intros Hab Hfg. unfold bzip.
  destruct a as [|x [|x' a]]; destruct b as [|y [|y' b]]; simpl in *;
    try discriminate; try reflexivity.
  - rewrite Hfg by (left; reflexivity). reflexivity.
  - injection Hab as Hab. rewrite Hab, Nat.eqb_refl.
    rewrite Hfg by (left; reflexivity). simpl.
    rewrite Hfg by (right; left; reflexivity). simpl.
    erewrite zipM_pure
      by (intros x0 y0 Hin; apply Hfg; right; right; exact Hin).
    reflexivity.
Qed.

Lemma has_shape_nth (n k : nat) (m : list (list A)) (i : nat) :
  has_shape n k m -> i < n -> length (nth i m []) = k.
Proof.
  intros [Hn Hk] Hi. rewrite Forall_forall in Hk.
  apply Hk, nth_In. lia.
Qed.

Lemma has_shape_map (g : A -> A) (n k : nat) (m : list (list A)) :
  has_shape n k m -> has_shape n k (map (map g) m).
Proof.
  intros [Hn Hk]. split; [rewrite length_map; exact Hn|].
  apply Forall_map. eapply Forall_impl; [|exact Hk].
  intros r Hr. simpl. rewrite length_map. exact Hr.
Qed.

Lemma in_combine_shapes (n k : nat) (a b : list (list A)) (r s : list A) :
  has_shape n k a -> has_shape n k b -> In (r, s) (combine a b) ->
  length r = k /\ length s = k.
Proof.
  intros [_ Ha] [_ Hb] Hin. rewrite Forall_forall in Ha, Hb.
  split; [apply Ha; eapply in_combine_l | apply Hb; eapply in_combine_r];
    exact Hin.
Qed.

Lemma has_shape_zip_with (f : A -> A -> A) (n k : nat) (a b : list (list A)) :
  has_shape n k a -> has_shape n k b ->
  has_shape n k (zip_with (zip_with f) a b).
Proof.
  intros Ha Hb. split.
  - rewrite zip_with_length; [apply Ha|]. destruct Ha, Hb. congruence.
  - unfold zip_with at 1. apply Forall_map, Forall_forall.
    intros [r s] Hin. simpl.
    destruct (@in_combine_shapes n k a b r s Ha Hb Hin) as [Hr Hs].
    rewrite zip_with_length; congruence.
Qed.

(** Elementwise operators on two matrices of one shape. *)
Lemma broadcast_same (f : A -> A -> A) (n k : nat) (a b : list (list A)) :
  has_shape n k a -> has_shape n k b ->
  broadcast f (Mat a) (Mat b) = Ok (Mat (zip_with (zip_with f) a b)).
Proof.
  intros Ha Hb. unfold broadcast. simpl rows.
  rewrite (bzip_same (brow f) (zip_with f)); [reflexivity| |].
  - destruct Ha, Hb. congruence.
  - intros r s Hin. destruct (@in_combine_shapes n k a b r s Ha Hb Hin).
    apply brow_same. congruence.
Qed.

(** A one-entry vector against a matrix: every entry meets the same scalar. *)
Lemma broadcast_scalar_l (f : A -> A -> A) (a : A) (m : list (list A)) :
  broadcast f (Vec [a]) (Mat m) = Ok (Mat (map (map (f a)) m)).
Proof.
  unfold broadcast. simpl rows. unfold bzip.
  erewrite mapM_ext_in by (intros r _; apply brow_scalar).
  rewrite mapM_pure. reflexivity.
Qed.

Lemma entry_map (g : A -> A) (n k : nat) (m : list (list A)) (i j : nat) :
  has_shape n k m -> i < n -> j < k ->
  entry (map (map g) m) i j = g (entry m i j).
Proof.
  intros Hm Hi Hj. unfold entry.
  rewrite (map_nth_lt (map g) m [] []) by (destruct Hm; lia).
  apply map_nth_lt. rewrite (has_shape_nth Hm Hi). exact Hj.
Qed.

Lemma entry_zip_with (f : A -> A -> A) (n k : nat) (a b : list (list A))
    (i j : nat) :
  has_shape n k a -> has_shape n k b -> i < n -> j < k ->
  entry (zip_with (zip_with f) a b) i j = f (entry a i j) (entry b i j).
Proof.
  intros Ha Hb Hi Hj. unfold entry.
  rewrite (zip_with_nth (zip_with f) a b [] [] [])
    by (destruct Ha, Hb; lia).
  apply zip_with_nth; rewrite (has_shape_nth Ha Hi);
    [exact Hj | symmetry; apply (has_shape_nth Hb Hi)].
Qed.

Lemma map_nth_seq_id {X : Type} (l : list X) (d : X) :
  map (fun i => nth i l d) (seq 0 (length l)) = l.
Proof.
  apply (nth_ext _ _ d d).
  - rewrite length_map, length_seq. reflexivity.
  - intros i Hi. rewrite length_map, length_seq in Hi.
    rewrite (map_nth_lt (fun i => nth i l d) (seq 0 (length l)) 0 d)
      by (rewrite length_seq; exact Hi).
    rewrite seq_nth by exact Hi. reflexivity.
Qed.

Lemma width_shape (n k : nat) (m : list (list A)) :
  has_shape n k m -> 0 < n -> width m = k.
Proof.
  intros [Hn Hk] Hpos. unfold width.
  destruct m as [|r m]; simpl in *; [lia|].
  inversion Hk; assumption.
Qed.

Lemma column_length (j : nat) (m : list (list A)) : length (column j m) = length m.
Proof. unfold column. apply length_map. Qed.

Lemma transpose_shape (n k : nat) (m : list (list A)) :
  has_shape n k m -> 0 < n -> has_shape k n (transpose m).
Proof.
  intros Hm Hpos. unfold transpose. rewrite (width_shape Hm Hpos).
  split; [rewrite length_map, length_seq; reflexivity|].
  apply Forall_map, Forall_forall. intros j _.
  rewrite column_length. apply Hm.
Qed.

Lemma column_transpose (n k : nat) (m : list (list A)) (i : nat) :
  has_shape n k m -> i < n -> column i (transpose m) = nth i m [].
Proof.
  intros Hm Hi. unfold transpose, column.
  rewrite (width_shape Hm) by lia. rewrite map_map.
  etransitivity; [|apply (map_nth_seq_id (nth i m []) (flit 0))].
  rewrite (has_shape_nth Hm Hi).
  apply map_ext_in. intros j Hj. apply in_seq in Hj.
  apply (map_nth_lt (fun r => nth j r (flit 0)) m [] (flit 0)).
  destruct Hm; lia.
Qed.

(** Transposing twice gives the matrix back (no dimension being zero). *)
Lemma transpose_involutive (n k : nat) (m : list (list A)) :
  has_shape n k m -> 0 < n -> 0 < k -> transpose (transpose m) = m.
Proof.
  intros Hm Hn Hk.
  pose proof (transpose_shape Hm Hn) as Ht.
  unfold transpose at 1. rewrite (width_shape Ht Hk).
  etransitivity; [|apply (map_nth_seq_id m [])]. destruct Hm as [Hlen Hrows].
  rewrite Hlen. apply map_ext_in. intros i Hi. apply in_seq in Hi.
  apply (@column_transpose n k); [split; assumption | lia].
Qed.

Lemma rectangular_shape (n k : nat) (m : list (list A)) :
  has_shape n k m -> rectangular m = true.
Proof.
  intros Hm. unfold rectangular. apply forallb_forall. intros r Hr.
  apply Nat.eqb_eq.
  assert (0 < n) as Hpos.
  { destruct Hm as [Hn _]. destruct m; simpl in *; [contradiction | lia]. }
  rewrite (width_shape Hm Hpos). destruct Hm as [_ Hk].
  rewrite Forall_forall in Hk. apply Hk, Hr.
Qed.

Lemma rows_length_check (n k : nat) (m : list (list A)) :
  has_shape n k m -> forallb (fun r => Nat.eqb (length r) k) m = true.
Proof.
  intros [_ Hk]. apply forallb_forall. intros r Hr. apply Nat.eqb_eq.
  rewrite Forall_forall in Hk. apply Hk, Hr.
Qed.

(** The product of an [n x k] and a [k x w] matrix, for [k > 0]. *)
Lemma tf_matmul_shape (n k w : nat) (a b : list (list A)) :
  has_shape n k a -> has_shape k w b -> 0 < k ->
  tf_matmul (Mat a) (Mat b)
    = Ok (Mat (map (fun r => map (dot r) (transpose b)) a))
  /\ has_shape n w (map (fun r => map (dot r) (transpose b)) a).
Proof.
  intros Ha Hb Hk. split.
  - unfold tf_matmul. replace (length b) with k by (symmetry; apply Hb).
    rewrite (rows_length_check Ha), (rectangular_shape Hb). reflexivity.
  - split; [rewrite length_map; apply Ha|].
    apply Forall_map, Forall_forall. intros r _.
    rewrite length_map. apply (transpose_shape Hb Hk).
Qed.

(** [N @ alpha.T] for a square [alpha]: entry (i, j) pairs row [i] of [N] with
    row [j] of [alpha]. *)
Lemma tf_matmul_T (n k : nat) (a b : list (list A)) :
  has_shape n k a -> has_shape k k b ->
  tf_matmul (Mat a) (T (Mat b)) = Ok (Mat (map (fun r => map (dot r) b) a)).
Proof.
  intros Ha Hb. simpl T.
  destruct (Nat.eq_dec k 0) as [-> | Hk].
  - assert (b = []) as ->
      by (destruct Hb as [Hb _]; destruct b; [reflexivity | discriminate]).
    unfold tf_matmul. simpl.
    rewrite (rows_length_check Ha). reflexivity.
  - assert (0 < k) as Hpos by lia.
    destruct (@tf_matmul_shape n k k a (transpose b)) as [-> _];
      [exact Ha | apply transpose_shape; assumption | exact Hpos |].
    rewrite (transpose_involutive Hb Hpos Hpos). reflexivity.
Qed.

Lemma dot_fsum (k : nat) (r c : list A) :
  length r = k -> length c = k ->
  dot r c = fsum k (fun i => fmul (nth i r (flit 0)) (nth i c (flit 0))).
Proof.
  intros Hr Hc. unfold dot, fsum. f_equal.
  apply (nth_ext _ _ (flit 0) (flit 0)).
  - rewrite !length_map, length_combine, length_seq. lia.
  - intros i Hi. rewrite length_map, length_combine in Hi.
    fold (zip_with fmul r c).
    rewrite (zip_with_nth fmul r c (flit 0) (flit 0) (flit 0)) by lia.
    rewrite (map_nth_lt _ (seq 0 k) 0 (flit 0)) by (rewrite length_seq; lia).
    rewrite seq_nth by lia. reflexivity.
Qed.

Lemma entry_matmul_rows (n k : nat) (a b : list (list A)) (i j : nat) :
  has_shape n k a -> has_shape k k b -> i < n -> j < k ->
  entry (map (fun r => map (dot r) b) a) i j
    = fsum k (fun l => fmul (entry a i l) (entry b j l)).
Proof.
  intros Ha Hb Hi Hj. unfold entry at 1.
  rewrite (map_nth_lt (fun r => map (dot r) b) a [] [])
    by (destruct Ha; lia).
  rewrite (map_nth_lt (dot (nth i a [])) b [] (flit 0))
    by (destruct Hb; lia).
  apply dot_fsum; [apply (has_shape_nth Ha Hi) | apply (has_shape_nth Hb Hj)].
Qed.

Lemma has_shape_matmul_rows (n k : nat) (a b : list (list A)) :
  has_shape n k a -> has_shape k k b ->
  has_shape n k (map (fun r => map (dot r) b) a).
Proof.
  intros Ha Hb. split; [rewrite length_map; apply Ha|].
  apply Forall_map, Forall_forall. intros r _. rewrite length_map. apply Hb.
Qed.

(** A matrix plus a rank-1 tensor of the width of its rows (a bias). *)
Lemma broadcast_row_r (f : A -> A -> A) (n k : nat) (m : list (list A))
    (b : list A) :
  has_shape n k m -> length b = k ->
  broadcast f (Mat m) (Vec b) = Ok (Mat (map (fun r => zip_with f r b) m)).
Proof.
  intros Hm Hb. unfold broadcast. simpl rows.
  assert (mapM (fun r => brow f r b) m = Ok (map (fun r => zip_with f r b) m))
    as Hmap.
  { rewrite <- mapM_pure. apply mapM_ext_in. intros r Hr.
    apply brow_same. destruct Hm as [_ Hk]. rewrite Forall_forall in Hk.
    rewrite (Hk r Hr). symmetry. exact Hb. }
  unfold bzip. destruct m as [|r [|r' m]].
  - reflexivity.
  - simpl. rewrite brow_same; [reflexivity|].
    destruct Hm as [_ Hk]. inversion Hk; congruence.
  - rewrite Hmap. reflexivity.
Qed.

End TensorFacts.

(** * The function approximator *)

Section Approximator.
Context {A : Type} `{Scalar A}.

Lemma glorot_normal_shape (sample : nat -> nat -> A) (fan_in fan_out : nat) :
  has_shape fan_in fan_out (glorot_normal sample fan_in fan_out).
Proof.
  unfold glorot_normal. split.
  - rewrite length_map, length_seq. reflexivity.
  - apply Forall_map, Forall_forall. intros i _.
    rewrite length_map, length_seq. reflexivity.
Qed.

Lemma add_layers_shape (sample : nat -> nat -> nat -> A) (widths : list nat) :
  forall k input_dim,
    weights_shape input_dim widths (add_layers sample k input_dim widths).
Proof.
  induction widths as [|w widths IH]; intros k input_dim; simpl; [exact I|].
  split; [apply glorot_normal_shape|].
  split; [apply repeat_length | apply IH].
Qed.

Lemma zip_with_row_shape (f : A -> A -> A) (n k : nat) (m : list (list A))
    (b : list A) :
  has_shape n k m -> length b = k ->
  has_shape n k (map (fun r => zip_with f r b) m).
Proof.
  intros [Hn Hk] Hb. split; [rewrite length_map; exact Hn|].
  apply Forall_map. eapply Forall_impl; [|exact Hk].
  intros r Hr. simpl. rewrite zip_with_length; congruence.
Qed.

(** One layer on a batch: the affine result has the layer's width, and the
    layer returns its hyperbolic tangent. *)
Lemma dense_call_shape (n k w : nat) (l : Dense A) (x : list (list A)) :
  has_shape n k x -> has_shape k w (fst l) -> length (snd l) = w -> 0 < k ->
  exists z,
    dense_affine l (Mat x) = Ok (Mat z) /\ has_shape n w z
    /\ dense_call l (Mat x) = Ok (Mat (map (map ftanh) z)).
Proof.
  intros Hx Hk Hb Hpos.
  destruct (tf_matmul_shape Hx Hk Hpos) as [Hmm Hshape].
  exists (map (fun r => zip_with fadd r (snd l))
              (map (fun r => map (dot r) (transpose (fst l))) x)).
  assert (dense_affine l (Mat x)
          = Ok (Mat (map (fun r => zip_with fadd r (snd l))
                      (map (fun r => map (dot r) (transpose (fst l))) x))))
    as Haff.
  { unfold dense_affine. rewrite Hmm. simpl bind.
    apply (broadcast_row_r fadd (snd l) Hshape Hb). }
  repeat split.
  - exact Haff.
  - rewrite length_map. apply Hshape.
  - apply (zip_with_row_shape fadd (snd l) Hshape Hb).
  - unfold dense_call. rewrite Haff. reflexivity.
Qed.

Lemma last_cons_indep {X : Type} (l : list X) :
  forall a d d' : X, last (a :: l) d = last (a :: l) d'.
Proof.
  induction l as [|b l IH]; intros a d d'; [reflexivity|].
  change (last (b :: l) d = last (b :: l) d'). apply IH.
Qed.

Lemma Sequential_call_shape (widths : list nat) :
  forall (model : Sequential A) (input_dim n : nat) (x : list (list A)),
    weights_shape input_dim widths model -> 0 < input_dim ->
    inner_positive widths -> has_shape n input_dim x ->
    exists U, Sequential_call model (Mat x) = Ok (Mat U)
              /\ has_shape n (last widths input_dim) U.
Proof.
  induction widths as [|w widths IH]; intros model d n x Hw Hd Hpos Hx.
  - destruct model; [|contradiction]. exists x. split; [reflexivity | exact Hx].
  - destruct model as [|l model]; [contradiction|].
    destruct Hw as (Hk & Hb & Hw).
    destruct (dense_call_shape l Hx Hk Hb Hd) as (z & _ & Hz & Hcall).
    simpl Sequential_call. rewrite Hcall. simpl bind.
    destruct widths as [|w' widths].
    + destruct model; [|contradiction]. simpl.
      eexists. split; [reflexivity|]. apply has_shape_map, Hz.
    + destruct Hpos as [Hwpos Hpos].
      destruct (IH model w n (map (map ftanh) z) Hw Hwpos Hpos
                  (has_shape_map ftanh Hz)) as (U & HU & HshapeU).
      exists U. split; [exact HU|].
      replace (last (w :: w' :: widths) d) with (last (w' :: widths) w);
        [exact HshapeU|].
      change (last (w :: w' :: widths) d) with (last (w' :: widths) d).
      apply last_cons_indep.
Qed.

Lemma Sequential_call_app (model : Sequential A) (l : Dense A) :
  forall x : tensor A,
    Sequential_call (model ++ [l]) x
    = (h <- Sequential_call model x ;; dense_call l h).
Proof.
  induction model as [|l0 model IH]; intros x; simpl.
  - destruct (dense_call l x); reflexivity.
  - destruct (dense_call l0 x) as [h|e]; simpl; [apply IH | reflexivity].
Qed.

Lemma layers_eq (q : nat) : layers q = [1; 50; 50; 50; q]%nat.
Proof. reflexivity. Qed.

(** The network the script builds, on a column of [n] points. *)
Lemma script_network_shape (sample : nat -> nat -> nat -> A) (q n : nat)
    (x : list (list A)) :
  has_shape n 1 x ->
  exists U,
    Sequential_call (add_layers sample 0 1 [50; 50; 50; q]%nat) (Mat x)
      = Ok (Mat U)
    /\ has_shape n q U.
Proof.
  intros Hx.
  apply (@Sequential_call_shape [50; 50; 50; q]%nat _ 1%nat n x).
  - apply add_layers_shape.
  - lia.
  - simpl. repeat split; lia.
  - exact Hx.
Qed.

End Approximator.

(** * The training driver *)

Section Driver.
Context {A : Type} `{Scalar A}.
Context {O : Type} `{Backend A O}.

Local Notation "'PINN'" := (PhysicsInformedNN A O).

Lemma bind_action_inv {S X Y : Type} (m : action S X) (k : X -> action S Y)
    (s s' : S) (r : result Y) :
  bind_action m k s = (s', r) ->
  (exists x s1, m s = (s1, Ok x) /\ k x s1 = (s', r))
  \/ (exists e, m s = (s', Raise e) /\ r = Raise e).
Proof.
  unfold bind_action. destruct (m s) as [s1 [x|e]]; intros Hrun.
  - left. exists x, s1. split; [reflexivity | exact Hrun].
  - right. exists e. inversion Hrun; subst. split; reflexivity.
Qed.

Lemma read_inv {S X : Type} (f : S -> result X) (s s' : S) (r : result X) :
  read f s = (s', r) -> s' = s /\ r = f s.
Proof. unfold read. intros Hrun; inversion Hrun; split; reflexivity. Qed.

Lemma update_inv {S : Type} (f : S -> S) (s s' : S) (r : result unit) :
  update f s = (s', r) -> s' = f s /\ r = Ok tt.
Proof. unfold update. intros Hrun; inversion Hrun; split; reflexivity. Qed.

Lemma same_data_refl (s : PINN) : same_data s s.
Proof. unfold same_data. repeat split; reflexivity. Qed.

Lemma same_data_trans (s1 s2 s3 : PINN) :
  same_data s1 s2 -> same_data s2 s3 -> same_data s1 s3.
Proof.
  unfold same_data. intros H12 H23.
  decompose [and] H12. decompose [and] H23.
  repeat split; congruence.
Qed.

Lemma assign_variables_data (s s' : PINN) (vals : list (tensor A)) :
  assign_variables s vals = Ok s' ->
  same_data s s' /\ calls s' = calls s /\ logger s' = logger s
  /\ optimizer s' = optimizer s.
Proof.
  unfold assign_variables.
  destruct (assign_weights (U_model s) vals) as [[model rest]|e]; simpl;
    [|discriminate].
  destruct rest as [|l1 [|l2 [|? ?]]]; try discriminate.
  intros Hok; inversion Hok; subst.
  unfold same_data; simpl. repeat split; reflexivity.
Qed.

Lemma wrap_training_variables_inv (s : PINN) (var : list (tensor A)) :
  __wrap_training_variables s = Ok var ->
  exists l1 l2, lambda_1 s = Some l1 /\ lambda_2 s = Some l2
                /\ var = trainable_variables (U_model s) ++ [l1; l2].
Proof.
  unfold __wrap_training_variables.
  destruct (lambda_1 s) as [l1|]; simpl; [|discriminate].
  destruct (lambda_2 s) as [l2|]; simpl; [|discriminate].
  intros Hok; inversion Hok. exists l1, l2. repeat split; reflexivity.
Qed.

(** The optimizer's update: it is called once, on all the variables, whatever
    it does with them; and it leaves the data alone. *)
Lemma optimizer_apply_gradients_spec (grads : list (tensor A)) (s s' : PINN)
    (r : result unit) :
  optimizer_apply_gradients grads s = (s', r) ->
  same_data s s' /\ logger s' = logger s
  /\ ((exists e, r = Raise e /\ calls s' = calls s)
      \/ (exists l1 l2,
             calls s' = calls s
                          ++ [apply_call grads
                                (trainable_variables (U_model s) ++ [l1; l2])])).
Proof.
  unfold optimizer_apply_gradients. intros Hrun.
  apply bind_action_inv in Hrun.
  destruct Hrun as [(var & s1 & Hread & Hrun) | (e & Hread & ->)];
    apply read_inv in Hread; destruct Hread as [-> Hvar].
  2:{ split; [apply same_data_refl|]. split; [reflexivity|].
      left. exists e. split; reflexivity. }
  symmetry in Hvar.
  destruct (wrap_training_variables_inv _ Hvar) as (l1 & l2 & _ & _ & ->).
  assert (forall t : PINN,
             same_data s t -> logger t = logger s ->
             calls t = calls s
                         ++ [apply_call grads
                               (trainable_variables (U_model s) ++ [l1; l2])] ->
             same_data s t /\ logger t = logger s
             /\ ((exists e, r = Raise e /\ calls t = calls s)
                 \/ (exists l1 l2,
                        calls t = calls s
                          ++ [apply_call grads
                                (trainable_variables (U_model s) ++ [l1; l2])])))
    as Hdone.
  { intros t Hd Hl Hc. split; [exact Hd|]. split; [exact Hl|].
    right. exists l1, l2. exact Hc. }
  apply bind_action_inv in Hrun.
  destruct Hrun as [(u & s2 & Hupd & Hrun) | (e & Hupd & _)];
    apply update_inv in Hupd; destruct Hupd as [-> Hu]; [|discriminate].
  apply bind_action_inv in Hrun.
  destruct Hrun as [([o vals] & s3 & Hread & Hrun) | (e & Hread & ->)];
    apply read_inv in Hread; destruct Hread as [-> Hopt].
  2:{ apply Hdone; [|reflexivity|reflexivity].
      unfold same_data; simpl; repeat split; reflexivity. }
  apply bind_action_inv in Hrun.
  destruct Hrun as [(u' & s4 & Hupd & Hrun) | (e & Hupd & _)];
    apply update_inv in Hupd; destruct Hupd as [-> Hu']; [|discriminate].
  unfold try_update in Hrun.
  match type of Hrun with
  | context [assign_variables ?t ?v] =>
      destruct (assign_variables t v) as [t'|e] eqn:Hassign
  end; inversion Hrun; subst.
  - destruct (assign_variables_data _ _ Hassign) as (Hd & Hc & Hl & _).
    apply Hdone.
    + eapply same_data_trans; [|exact Hd].
      unfold same_data; simpl. repeat split; reflexivity.
    + rewrite Hl. reflexivity.
    + rewrite Hc. reflexivity.
  - apply Hdone; [|reflexivity|reflexivity].
    unfold same_data; simpl. repeat split; reflexivity.
Qed.

Lemma getattr_inv {X : Type} (o : option X) (x : X) :
  Ok x = getattr o -> o = Some x.
Proof. destruct o; simpl; intros Hx; inversion Hx; reflexivity. Qed.

Lemma extends_calls_nil (s s' : PINN) (n : nat) :
  calls s' = calls s -> extends_calls s s' n [].
Proof.
  intros Hc. unfold extends_calls. rewrite app_nil_r. simpl.
  repeat split; [exact Hc | lia | lia].
Qed.

(** One pass through the loop body. It leaves the data alone and makes at most
    one gradient computation and then at most one update; when it returns, it
    has made the two calls of an epoch on the stored data. *)
Lemma epoch_body_spec (log_epochs epoch : Z) (s s' : PINN) (r : result unit) :
  epoch_body log_epochs epoch s = (s', r) ->
  same_data s s'
  /\ exists cs,
       extends_calls s s' 1 cs
       /\ (r = Ok tt ->
           exists x0 u0 x1 u1,
             x_0 s = Some x0 /\ u_0 s = Some u0 /\ x_1 s = Some x1
             /\ u_1 s = Some u1 /\ epoch_calls x0 u0 x1 u1 cs).
Proof.
  unfold epoch_body. intros Hrun.
  assert (forall e : exn,
             r = Raise e ->
             same_data s s
             /\ exists cs,
                  extends_calls s s 1 cs
                  /\ (r = Ok tt ->
                      exists x0 u0 x1 u1,
                        x_0 s = Some x0 /\ u_0 s = Some u0 /\ x_1 s = Some x1
                        /\ u_1 s = Some u1 /\ epoch_calls x0 u0 x1 u1 cs))
    as Hearly.
  { intros e ->. split; [apply same_data_refl|]. exists [].
    split; [apply extends_calls_nil; reflexivity | discriminate]. }
  apply bind_action_inv in Hrun.
  destruct Hrun as [(x0 & s1 & Hread & Hrun) | (e & Hread & Hr)];
    apply read_inv in Hread; destruct Hread as [-> Hx0];
    [|exact (Hearly e Hr)].
  apply bind_action_inv in Hrun.
  destruct Hrun as [(u0 & s1 & Hread & Hrun) | (e & Hread & Hr)];
    apply read_inv in Hread; destruct Hread as [-> Hu0];
    [|exact (Hearly e Hr)].
  apply bind_action_inv in Hrun.
  destruct Hrun as [(x1 & s1 & Hread & Hrun) | (e & Hread & Hr)];
    apply read_inv in Hread; destruct Hread as [-> Hx1];
    [|exact (Hearly e Hr)].
  apply bind_action_inv in Hrun.
  destruct Hrun as [(u1 & s1 & Hread & Hrun) | (e & Hread & Hr)];
    apply read_inv in Hread; destruct Hread as [-> Hu1];
    [|exact (Hearly e Hr)].
  clear Hearly.
  apply getattr_inv in Hx0, Hu0, Hx1, Hu1.
  apply bind_action_inv in Hrun.
  destruct Hrun as [(u & s1 & Hupd & Hrun) | (e & Hupd & _)];
    apply update_inv in Hupd; destruct Hupd as [-> Hupd];
    [clear Hupd | discriminate].
  set (s1 := record_call (grad_call x0 u0 x1 u1) s) in *.
  assert (same_data s s1) as Hs1
    by (unfold same_data; simpl; repeat split; reflexivity).
  apply bind_action_inv in Hrun.
  destruct Hrun as [([loss_value grads] & s2 & Hread & Hrun) | (e & Hread & ->)];
    apply read_inv in Hread; destruct Hread as [-> Hgrad].
  2:{ split; [exact Hs1|]. exists [grad_call x0 u0 x1 u1].
      split; [|discriminate].
      unfold extends_calls. simpl. repeat split; lia. }
  apply bind_action_inv in Hrun.
  destruct Hrun as [(done & s2 & Hopt & Hrun) | (e & Hopt & ->)];
    apply optimizer_apply_gradients_spec in Hopt;
    destruct Hopt as (Hs2 & Hlog & Hcalls).
  2:{ split; [eapply same_data_trans; eassumption|].
      destruct Hcalls as [(e' & _ & Hc) | (l1 & l2 & Hc)].
      - exists [grad_call x0 u0 x1 u1]. split; [|discriminate].
        unfold extends_calls. rewrite Hc. simpl. repeat split; lia.
      - exists [grad_call x0 u0 x1 u1;
                apply_call grads (trainable_variables (U_model s1) ++ [l1; l2])].
        split; [|discriminate].
        unfold extends_calls. rewrite Hc. simpl. rewrite <- app_assoc.
        repeat split; lia. }
  destruct Hcalls as [(e' & He' & _) | (l1 & l2 & Hcalls)]; [discriminate|].
  assert (same_data s s2) as Hss2 by (eapply same_data_trans; eassumption).
  assert (forall t : PINN,
             same_data s2 t -> calls t = calls s2 ->
             same_data s t
             /\ exists cs,
                  extends_calls s t 1 cs
                  /\ (r = Ok tt ->
                      exists x0' u0' x1' u1',
                        x_0 s = Some x0' /\ u_0 s = Some u0'
                        /\ x_1 s = Some x1' /\ u_1 s = Some u1'
                        /\ epoch_calls x0' u0' x1' u1' cs))
    as Hdone.
  { intros t Hd Hc. split; [eapply same_data_trans; eassumption|].
    exists [grad_call x0 u0 x1 u1;
            apply_call grads (trainable_variables (U_model s1) ++ [l1; l2])].
    split.
    - unfold extends_calls. rewrite Hc, Hcalls. simpl. rewrite <- app_assoc.
      repeat split; lia.
    - intros _. exists x0, u0, x1, u1. repeat split; try assumption.
      exists grads, (U_model s1), l1, l2. reflexivity. }
  destruct (Z.eqb log_epochs 0).
  { unfold raise in Hrun. inversion Hrun; subst.
    apply Hdone; [apply same_data_refl | reflexivity]. }
  destruct (Z.eqb (epoch mod log_epochs) 0).
  - apply bind_action_inv in Hrun.
    destruct Hrun as [([a b] & s3 & Hread & Hrun) | (e & Hread & ->)];
      apply read_inv in Hread; destruct Hread as [-> _];
      [|apply Hdone; [apply same_data_refl | reflexivity]].
    apply update_inv in Hrun. destruct Hrun as [-> ->].
    apply Hdone; [|reflexivity].
    unfold same_data; simpl; repeat split; reflexivity.
  - unfold ret in Hrun. inversion Hrun; subst.
    apply Hdone; [apply same_data_refl | reflexivity].
Qed.

Lemma extends_calls_app (s1 s2 s3 : PINN) (n m : nat) (c1 c2 : list (call A)) :
  extends_calls s1 s2 n c1 -> extends_calls s2 s3 m c2 ->
  extends_calls s1 s3 (n + m) (c1 ++ c2).
Proof.
  unfold extends_calls. intros (Hc1 & Ha1 & Hg1) (Hc2 & Ha2 & Hg2).
  rewrite !filter_app, !length_app. repeat split; try lia.
  rewrite Hc2, Hc1, app_assoc. reflexivity.
Qed.

Lemma extends_calls_weaken (s s' : PINN) (n m : nat) (cs : list (call A)) :
  extends_calls s s' n cs -> (n <= m)%nat -> extends_calls s s' m cs.
Proof.
  unfold extends_calls. intros (Hc & Ha & Hg) Hnm.
  repeat split; try lia. exact Hc.
Qed.

(** The loop: it leaves the data alone and makes the calls of at most as many
    epochs as the list has items, and of exactly as many when it returns. *)
Lemma training_loop_spec (log_epochs : Z) (x0 u0 x1 u1 : tensor A)
    (l : list Z) :
  forall (s s' : PINN) (r : result unit),
    for_each l (epoch_body log_epochs) s = (s', r) ->
    x_0 s = Some x0 -> u_0 s = Some u0 -> x_1 s = Some x1 -> u_1 s = Some u1 ->
    same_data s s'
    /\ exists cs,
         extends_calls s s' (length l) cs
         /\ (r = Ok tt -> training_calls x0 u0 x1 u1 (length l) cs).
Proof.
  induction l as [|epoch l IH]; intros s s' r Hrun Hx0 Hu0 Hx1 Hu1.
  - simpl in Hrun. unfold ret in Hrun. inversion Hrun; subst.
    split; [apply same_data_refl|]. exists [].
    split; [apply extends_calls_nil; reflexivity | reflexivity].
  - simpl in Hrun. apply bind_action_inv in Hrun.
    destruct Hrun as [(u & s1 & Hbody & Hrun) | (e & Hbody & ->)];
      apply epoch_body_spec in Hbody;
      destruct Hbody as (Hd1 & cs1 & Hext1 & Hc1).
    2:{ split; [exact Hd1|]. exists cs1. split; [|discriminate].
        apply (extends_calls_weaken Hext1). simpl. lia. }
    assert (x_0 s1 = Some x0 /\ u_0 s1 = Some u0 /\ x_1 s1 = Some x1
            /\ u_1 s1 = Some u1) as (Hx0' & Hu0' & Hx1' & Hu1').
    { unfold same_data in Hd1. decompose [and] Hd1.
      repeat split; congruence. }
    destruct (IH s1 s' r Hrun Hx0' Hu0' Hx1' Hu1') as (Hd2 & cs2 & Hext2 & Hc2).
    split; [eapply same_data_trans; eassumption|].
    exists (cs1 ++ cs2). split.
    + apply (extends_calls_app Hext1 Hext2).
    + intros Hr. destruct u.
      destruct (Hc1 eq_refl) as (x0' & u0' & x1' & u1' & E0 & E1 & E2 & E3 & He1).
      assert (x0' = x0) as -> by congruence.
      assert (u0' = u0) as -> by congruence.
      assert (x1' = x1) as -> by congruence.
      assert (u1' = u1) as -> by congruence.
      simpl. exists cs1, cs2. repeat split; [exact He1 | exact (Hc2 Hr)].
Qed.

Lemma range_length (n : Z) : length (range n) = Z.to_nat n.
Proof. unfold range. rewrite length_map, length_seq. reflexivity. Qed.

(** [fit], whether it returns or raises: the stage count and the rest of the
    constructor's data are kept, the dummy seeds are all-ones tensors as wide
    as the stage count, and no more than [epochs] epochs are run; exactly
    [epochs] when it returns. *)
Lemma fit_data (x0 u0 x1 u1 : tensor A) (epochs log_epochs : Z) (s s' : PINN)
    (r : result unit) :
  fit x0 u0 x1 u1 epochs log_epochs s = (s', r) ->
  q s' = q s /\ dt s' = dt s /\ lb s' = lb s /\ ub s' = ub s
  /\ IRK_alpha s' = IRK_alpha s /\ IRK_beta s' = IRK_beta s
  /\ dummy_x_0 s' = Some (tf_ones (shape0 x0) (Z.to_nat (q s)))
  /\ dummy_x_1 s' = Some (tf_ones (shape0 x1) (Z.to_nat (q s)))
  /\ exists cs,
       extends_calls s s' (Z.to_nat epochs) cs
       /\ (r = Ok tt -> training_calls x0 u0 x1 u1 (Z.to_nat epochs) cs).
Proof.
  unfold fit. intros Hrun.
  apply bind_action_inv in Hrun.
  destruct Hrun as [(u & s1 & Hupd & Hrun) | (e & Hupd & _)];
    apply update_inv in Hupd; destruct Hupd as [-> Hupd];
    [clear Hupd | discriminate].
  apply bind_action_inv in Hrun.
  destruct Hrun as [(u' & s2 & Hupd & Hrun) | (e & Hupd & _)];
    apply update_inv in Hupd; destruct Hupd as [-> Hupd];
    [clear Hupd | discriminate].
  set (s2 := create_tensors x0 u0 x1 u1 (log log_train_start s)) in *.
  apply bind_action_inv in Hrun.
  destruct Hrun as [(u'' & s3 & Hloop & Hrun) | (e & Hloop & ->)];
    apply (@training_loop_spec log_epochs x0 u0 x1 u1) in Hloop;
    try reflexivity; destruct Hloop as (Hd & cs & Hext & Hc);
    rewrite range_length in Hext, Hc.
  - apply update_inv in Hrun. destruct Hrun as [-> ->].
    unfold same_data in Hd. decompose [and] Hd. simpl.
    repeat (split; [assumption|]).
    exists cs. split; [exact Hext|]. intros _. destruct u''. apply Hc. reflexivity.
  - unfold same_data in Hd. decompose [and] Hd.
    repeat (split; [assumption|]).
    exists cs. split; [exact Hext | discriminate].
Qed.

Lemma training_calls_count (x0 u0 x1 u1 : tensor A) (n : nat) :
  forall cs : list (call A),
    training_calls x0 u0 x1 u1 n cs ->
    length (filter is_grad_call cs) = n
    /\ length (filter is_apply_call cs) = n
    /\ length cs = (2 * n)%nat.
Proof.
  induction n as [|n IH]; intros cs Ht; simpl in Ht.
  - subst cs. repeat split; reflexivity.
  - destruct Ht as (c1 & cs' & -> & (g & model & l1 & l2 & ->) & Ht).
    destruct (IH cs' Ht) as (Hg & Ha & Hl). simpl.
    repeat split; lia.
Qed.

(** Every call made while training is a gradient over the whole data or an
    update of the whole list of variables. *)
Lemma training_calls_all (x0 u0 x1 u1 : tensor A) (n : nat) :
  forall cs : list (call A),
    training_calls x0 u0 x1 u1 n cs ->
    Forall (fun c =>
              match c with
              | grad_call a b c d => a = x0 /\ b = u0 /\ c = x1 /\ d = u1
              | apply_call _ vars =>
                  exists (model : Sequential A) (l1 l2 : tensor A),
                    vars = trainable_variables model ++ [l1; l2]
              end) cs.
Proof.
  induction n as [|n IH]; intros cs Ht; simpl in Ht.
  - subst cs. constructor.
  - destruct Ht as (c1 & cs' & -> & (g & model & l1 & l2 & ->) & Ht).
    simpl. constructor; [repeat split; reflexivity|].
    constructor; [exists model, l1, l2; reflexivity|].
    apply IH, Ht.
Qed.

End Driver.

(** * The stage predictors and the loss *)

Section Predictors.
Context {A : Type} `{Scalar A}.
Context {O : Type} `{Backend A O}.

Local Notation "'PINN'" := (PhysicsInformedNN A O).

Lemma N_0_spec (n k : nat) (l1 l2 : A) (U U_x U_xx : list (list A)) :
  has_shape n k U -> has_shape n k U_x -> has_shape n k U_xx ->
  exists N,
    N_0 (Vec [l1]) (Vec [l2]) (Mat U) (Mat U_x) (Mat U_xx) = Ok (Mat N)
    /\ has_shape n k N
    /\ forall i j, i < n -> j < k ->
                   entry N i j = spec_N_0 l1 l2 U U_x U_xx i j.
Proof.
  intros HU HUx HUxx.
  pose proof (has_shape_map (fmul l1) HU) as Ha.
  pose proof (has_shape_zip_with fmul Ha HUx) as Hb.
  pose proof (has_shape_map (fmul l2) HUxx) as Hc.
  eexists. split; [|split].
  - unfold N_0, tf_mul, tf_sub.
    rewrite broadcast_scalar_l. cbn [bind].
    rewrite (broadcast_same fmul Ha HUx). cbn [bind].
    rewrite broadcast_scalar_l. cbn [bind].
    apply (broadcast_same fsub Hb Hc).
  - apply (has_shape_zip_with fsub Hb Hc).
  - intros i j Hi Hj. unfold spec_N_0.
    rewrite (entry_zip_with fsub Hb Hc Hi Hj).
    rewrite (entry_zip_with fmul Ha HUx Hi Hj).
    rewrite (entry_map (fmul l1) HU Hi Hj).
    rewrite (entry_map (fmul l2) HUxx Hi Hj).
    reflexivity.
Qed.

Lemma N_1_spec (n k : nat) (l1 l2 : A) (U U_x U_xx : list (list A)) :
  has_shape n k U -> has_shape n k U_x -> has_shape n k U_xx ->
  exists N,
    N_1 (Vec [l1]) (Vec [l2]) (Mat U) (Mat U_x) (Mat U_xx) = Ok (Mat N)
    /\ has_shape n k N
    /\ forall i j, i < n -> j < k ->
                   entry N i j = spec_N_1 l1 l2 U U_x U_xx i j.
Proof.
  intros HU HUx HUxx.
  pose proof (has_shape_map (fmul (fneg l1)) HU) as Ha.
  pose proof (has_shape_zip_with fmul Ha HUx) as Hb.
  pose proof (has_shape_map (fmul l2) HUxx) as Hc.
  eexists. split; [|split].
  - unfold N_1, tf_mul, tf_add. change (tf_neg (Vec [l1])) with (Vec [fneg l1]).
    rewrite broadcast_scalar_l. cbn [bind].
    rewrite (broadcast_same fmul Ha HUx). cbn [bind].
    rewrite broadcast_scalar_l. cbn [bind].
    apply (broadcast_same fadd Hb Hc).
  - apply (has_shape_zip_with fadd Hb Hc).
  - intros i j Hi Hj. unfold spec_N_1.
    rewrite (entry_zip_with fadd Hb Hc Hi Hj).
    rewrite (entry_zip_with fmul Ha HUx Hi Hj).
    rewrite (entry_map (fmul (fneg l1)) HU Hi Hj).
    rewrite (entry_map (fmul l2) HUxx Hi Hj).
    reflexivity.
Qed.

(** The last line of both predictors: [U + dt * tf.matmul(N, a.T)]. *)
Lemma stage_spec (n k : nat) (c : A) (U N a : list (list A)) :
  has_shape n k U -> has_shape n k N -> has_shape k k a ->
  exists P,
    (m <- tf_matmul (Mat N) (T (Mat a)) ;; tf_add (Mat U) (scale c m))
      = Ok (Mat P)
    /\ has_shape n k P
    /\ forall i j, i < n -> j < k ->
                   entry P i j = spec_stage c k U (entry N) a i j.
Proof.
  intros HU HN Ha.
  pose proof (has_shape_matmul_rows HN Ha) as Hm.
  pose proof (has_shape_map (fmul c) Hm) as Hs.
  eexists. split; [|split].
  - rewrite (tf_matmul_T HN Ha). cbn [bind]. unfold tf_add.
    change (scale c (Mat (map (fun r => map (dot r) a) N)))
      with (Mat (map (map (fmul c)) (map (fun r => map (dot r) a) N))).
    apply (broadcast_same fadd HU Hs).
  - apply (has_shape_zip_with fadd HU Hs).
  - intros i j Hi Hj. unfold spec_stage.
    rewrite (entry_zip_with fadd HU Hs Hi Hj).
    rewrite (entry_map (fmul c) Hm Hi Hj).
    rewrite (entry_matmul_rows HN Ha Hi Hj).
    reflexivity.
Qed.

Lemma fsum_ext (k : nat) (f g : nat -> A) :
  (forall l, l < k -> f l = g l) -> fsum k f = fsum k g.
Proof.
  intros Hfg. unfold fsum. f_equal. apply map_ext_in.
  intros l Hl. apply in_seq in Hl. apply Hfg. lia.
Qed.

Lemma spec_stage_ext (c : A) (k : nat) (U a : list (list A))
    (N N' : nat -> nat -> A) (i j : nat) :
  (forall l, l < k -> N i l = N' i l) ->
  spec_stage c k U N a i j = spec_stage c k U N' a i j.
Proof.
  intros HN. unfold spec_stage. f_equal. f_equal.
  apply fsum_ext. intros l Hl. rewrite (HN l Hl). reflexivity.
Qed.

(** The slice-0 predictor on a batch, once the network and the derivative
    engine have returned tensors of one shape. *)
Lemma U_0_model_value (self : PINN) (x d : tensor A) (n k : nat) (l1 lam2 : A)
    (U U_x U_xx a : list (list A)) :
  lambda_1 self = Some (Vec [l1]) -> lambda_2 self = Some (Vec [lam2]) ->
  dummy_x_0 self = Some d -> IRK_alpha self = Mat a ->
  Sequential_call (U_model self) x = Ok (Mat U) ->
  __autograd self (Mat U) x d = Ok (Mat U_x, Mat U_xx) ->
  has_shape n k U -> has_shape n k U_x -> has_shape n k U_xx ->
  has_shape k k a ->
  exists N P,
    N_0 (Vec [l1]) (tf_exp (Vec [lam2])) (Mat U) (Mat U_x) (Mat U_xx)
      = Ok (Mat N)
    /\ has_shape n k N
    /\ (forall i j, i < n -> j < k ->
                    entry N i j = spec_N_0 l1 (fexp lam2) U U_x U_xx i j)
    /\ U_0_model self x = Ok (Mat P)
    /\ has_shape n k P
    /\ (forall i j, i < n -> j < k ->
                    entry P i j
                    = spec_stage (dt self) k U
                        (spec_N_0 l1 (fexp lam2) U U_x U_xx) a i j).
Proof.
  intros Hl1 Hl2 Hd Ha HU Hg HsU HsUx HsUxx Hsa.
  destruct (N_0_spec l1 (fexp lam2) HsU HsUx HsUxx) as (N & HN & HsN & HeN).
  destruct (stage_spec (dt self) HsU HsN Hsa) as (P & HP & HsP & HeP).
  exists N, P.
  split; [exact HN|]. split; [exact HsN|]. split; [exact HeN|].
  split; [|split; [exact HsP|]].
  - unfold U_0_model. rewrite HU. cbn [bind]. rewrite Hd. cbn [getattr bind].
    rewrite Hg. cbn [bind]. rewrite Hl1, Hl2. cbn [getattr bind].
    change (tf_exp (Vec [lam2])) with (Vec [fexp lam2]).
    rewrite HN. cbn [bind]. rewrite Ha. exact HP.
  - intros i j Hi Hj. rewrite (HeP i j Hi Hj).
    apply spec_stage_ext. intros l Hl. apply HeN; assumption.
Qed.

(** The slice-1 predictor; [D] is the tableau difference the code computes. *)
Lemma U_1_model_value (self : PINN) (x d : tensor A) (n k : nat) (l1 lam2 : A)
    (U U_x U_xx D : list (list A)) :
  lambda_1 self = Some (Vec [l1]) -> lambda_2 self = Some (Vec [lam2]) ->
  dummy_x_1 self = Some d ->
  tf_sub (IRK_beta self) (IRK_alpha self) = Ok (Mat D) ->
  Sequential_call (U_model self) x = Ok (Mat U) ->
  __autograd self (Mat U) x d = Ok (Mat U_x, Mat U_xx) ->
  has_shape n k U -> has_shape n k U_x -> has_shape n k U_xx ->
  has_shape k k D ->
  exists N P,
    N_1 (Vec [l1]) (tf_exp (Vec [lam2])) (Mat U) (Mat U_x) (Mat U_xx)
      = Ok (Mat N)
    /\ has_shape n k N
    /\ (forall i j, i < n -> j < k ->
                    entry N i j = spec_N_1 l1 (fexp lam2) U U_x U_xx i j)
    /\ U_1_model self x = Ok (Mat P)
    /\ has_shape n k P
    /\ (forall i j, i < n -> j < k ->
                    entry P i j
                    = spec_stage (dt self) k U
                        (spec_N_1 l1 (fexp lam2) U U_x U_xx) D i j).
Proof.
  intros Hl1 Hl2 Hd HD HU Hg HsU HsUx HsUxx HsD.
  destruct (N_1_spec l1 (fexp lam2) HsU HsUx HsUxx) as (N & HN & HsN & HeN).
  destruct (stage_spec (dt self) HsU HsN HsD) as (P & HP & HsP & HeP).
  exists N, P.
  split; [exact HN|]. split; [exact HsN|]. split; [exact HeN|].
  split; [|split; [exact HsP|]].
  - unfold U_1_model. rewrite HU. cbn [bind]. rewrite Hd. cbn [getattr bind].
    rewrite Hg. cbn [bind]. rewrite Hl1, Hl2. cbn [getattr bind].
    change (tf_exp (Vec [lam2])) with (Vec [fexp lam2]).
    rewrite HN. cbn [bind]. rewrite HD. cbn [bind]. exact HP.
  - intros i j Hi Hj. rewrite (HeP i j Hi Hj).
    apply spec_stage_ext. intros l Hl. apply HeN; assumption.
Qed.

(** The tableau difference [IRK_beta - IRK_alpha]: entry by entry when [beta]
    has the shape of [alpha], and with [beta]'s only row against every row of
    [alpha] when [beta] is a single row. *)
Lemma tableau_difference_same (k : nat) (b a : list (list A)) :
  has_shape k k b -> has_shape k k a ->
  exists D, tf_sub (Mat b) (Mat a) = Ok (Mat D) /\ has_shape k k D
            /\ forall j l, j < k -> l < k ->
                           entry D j l = fsub (entry b j l) (entry a j l).
Proof.
  intros Hb Ha. eexists. split; [|split].
  - apply (broadcast_same fsub Hb Ha).
  - apply (has_shape_zip_with fsub Hb Ha).
  - intros j l Hj Hl. apply (entry_zip_with fsub Hb Ha Hj Hl).
Qed.

Lemma assign_weights_own (model : Sequential A) (rest : list (tensor A)) :
  assign_weights model (trainable_variables model ++ rest) = Ok (model, rest).
Proof.
  induction model as [|[kernel bias] model IH]; simpl; [reflexivity|].
  rewrite IH. reflexivity.
Qed.

(** Assigning to the variables the values they hold changes nothing. *)
Lemma assign_variables_own (self : PINN) (l1 l2 : tensor A) :
  lambda_1 self = Some l1 -> lambda_2 self = Some l2 ->
  assign_variables self (trainable_variables (U_model self) ++ [l1; l2])
  = Ok self.
Proof.
  intros Hl1 Hl2. unfold assign_variables. rewrite assign_weights_own.
  cbn [bind]. destruct self. simpl in *. subst. reflexivity.
Qed.

End Predictors.

(** * The properties *)

Section Properties.
Context {A : Type} `{Scalar A}.
Context {O : Type} `{Backend A O}.

Local Notation "'PINN'" := (PhysicsInformedNN A O).

(** C1. For every batch [x] and every value of the variables, the slice-0
    predictor computes the residual [N = lambda_1*U*U_x - exp(lambda_2)*U_xx]
    entry by entry from the network output [U] and its derivatives, and
    returns [U + dt * (N @ alpha^T)]: entry (i, j) is
    [U(i,j) + dt * sum_l N(i,l) * alpha(j,l)]. *)
Theorem U_0_model_correct (self : PINN) (x d : tensor A) (n k : nat)
    (l1 lam2 : A) (U U_x U_xx alpha : list (list A)) :
  lambda_1 self = Some (Vec [l1]) -> lambda_2 self = Some (Vec [lam2]) ->
  dummy_x_0 self = Some d -> IRK_alpha self = Mat alpha ->
  Sequential_call (U_model self) x = Ok (Mat U) ->
  __autograd self (Mat U) x d = Ok (Mat U_x, Mat U_xx) ->
  has_shape n k U -> has_shape n k U_x -> has_shape n k U_xx ->
  has_shape k k alpha ->
  exists N P,
    N_0 (Vec [l1]) (tf_exp (Vec [lam2])) (Mat U) (Mat U_x) (Mat U_xx)
      = Ok (Mat N)
    /\ has_shape n k N
    /\ (forall i j, i < n -> j < k ->
           entry N i j
           = fsub (fmul (fmul l1 (entry U i j)) (entry U_x i j))
                  (fmul (fexp lam2) (entry U_xx i j)))
    /\ U_0_model self x = Ok (Mat P)
    /\ has_shape n k P
    /\ (forall i j, i < n -> j < k ->
           entry P i j
           = fadd (entry U i j)
               (fmul (dt self)
                  (fsum k (fun l =>
                     fmul (spec_N_0 l1 (fexp lam2) U U_x U_xx i l)
                          (entry alpha j l))))).
Proof.
  intros Hl1 Hl2 Hd Ha HU Hg HsU HsUx HsUxx Hsa.
  exact (U_0_model_value self x Hl1 Hl2 Hd Ha HU Hg HsU HsUx HsUxx Hsa).
Qed.

(** C2. For every batch [x] and every value of the variables, the slice-1
    predictor computes [N = -lambda_1*U*U_x + exp(lambda_2)*U_xx] (the slice-0
    residual with both signs flipped) and returns
    [U + dt * (N @ (beta - alpha)^T)]: entry (i, j) is
    [U(i,j) + dt * sum_l N(i,l) * (beta - alpha)(j,l)]. *)
Theorem U_1_model_correct (self : PINN) (x d : tensor A) (n k : nat)
    (l1 lam2 : A) (U U_x U_xx D : list (list A)) :
  lambda_1 self = Some (Vec [l1]) -> lambda_2 self = Some (Vec [lam2]) ->
  dummy_x_1 self = Some d ->
  tf_sub (IRK_beta self) (IRK_alpha self) = Ok (Mat D) ->
  Sequential_call (U_model self) x = Ok (Mat U) ->
  __autograd self (Mat U) x d = Ok (Mat U_x, Mat U_xx) ->
  has_shape n k U -> has_shape n k U_x -> has_shape n k U_xx ->
  has_shape k k D ->
  exists N P,
    N_1 (Vec [l1]) (tf_exp (Vec [lam2])) (Mat U) (Mat U_x) (Mat U_xx)
      = Ok (Mat N)
    /\ has_shape n k N
    /\ (forall i j, i < n -> j < k ->
           entry N i j
           = fadd (fmul (fmul (fneg l1) (entry U i j)) (entry U_x i j))
                  (fmul (fexp lam2) (entry U_xx i j)))
    /\ U_1_model self x = Ok (Mat P)
    /\ has_shape n k P
    /\ (forall i j, i < n -> j < k ->
           entry P i j
           = fadd (entry U i j)
               (fmul (dt self)
                  (fsum k (fun l =>
                     fmul (spec_N_1 l1 (fexp lam2) U U_x U_xx i l)
                          (entry D j l))))).
Proof.
  intros Hl1 Hl2 Hd HD HU Hg HsU HsUx HsUxx HsD.
  exact (U_1_model_value self x Hl1 Hl2 Hd HD HU Hg HsU HsUx HsUxx HsD).
Qed.

(** C5 (amended). Every layer of the approximator, the last one included,
    applies the hyperbolic tangent: the output of the network is the tangent of
    the last layer's affine result, not that affine result itself. *)
Theorem output_layer_tanh (model : Sequential A) (l : Dense A) (x : tensor A) :
  Sequential_call (model ++ [l]) x
  = (h <- Sequential_call model x ;;
     z <- dense_affine l h ;;
     Ok (tf_tanh z)).
Proof.
  rewrite Sequential_call_app. unfold dense_call.
  destruct (Sequential_call model x); reflexivity.
Qed.

(** C6 (amended). For every batch of [n] points of shape [n x 1], the network
    the script builds returns an [n x q] matrix: the width of the output layer
    is the last item of [layers], which the script sets to [q]. *)
Theorem approximator_output_shape (sample : nat -> nat -> nat -> A) (q0 : nat)
    (opt : O) (lg : list (log_event A)) (dt0 : A) (lb0 ub0 alpha beta : tensor A)
    (qz : Z) (self : PINN) (n : nat) (x : list (list A)) :
  __init__ sample (layers q0) opt lg dt0 lb0 ub0 qz alpha beta = Ok self ->
  has_shape n 1 x ->
  last (layers q0) 0%nat = q0
  /\ exists U, Sequential_call (U_model self) (Mat x) = Ok (Mat U)
               /\ has_shape n q0 U.
Proof.
  intros Hinit Hx. split; [reflexivity|].
  rewrite layers_eq in Hinit. simpl in Hinit. inversion Hinit; subst. simpl U_model.
  apply script_network_shape, Hx.
Qed.

(** C10. For every stage count [q0] given to the constructor, zero and
    negative values included, the stored stage count is [max(q0, 1)], which is
    at least 1; it stays so through every later call of [fit], returning or
    raising, and [fit] gives the dummy seeds this clamped width. *)
Theorem stage_count_clamped (sample : nat -> nat -> nat -> A)
    (layers0 : list nat) (opt : O) (lg : list (log_event A)) (dt0 : A)
    (lb0 ub0 alpha beta : tensor A) (q0 : Z) (self : PINN) :
  __init__ sample layers0 opt lg dt0 lb0 ub0 q0 alpha beta = Ok self ->
  q self = Z.max q0 1 /\ (1 <= q self)%Z
  /\ forall s : PINN,
       fitted self s ->
       q s = Z.max q0 1
       /\ forall (x0 u0 x1 u1 : tensor A) (E log_epochs : Z) (s' : PINN)
                 (r : result unit),
            fit x0 u0 x1 u1 E log_epochs s = (s', r) ->
            dummy_x_0 s' = Some (tf_ones (shape0 x0) (Z.to_nat (Z.max q0 1)))
            /\ dummy_x_1 s' = Some (tf_ones (shape0 x1) (Z.to_nat (Z.max q0 1)))
            /\ (1 <= Z.to_nat (Z.max q0 1))%nat.
Proof.
  intros Hinit.
  assert (q self = Z.max q0 1) as Hq.
  { unfold __init__ in Hinit. destruct layers0; [discriminate|].
    inversion Hinit; subst. reflexivity. }
  split; [exact Hq|]. split; [lia|].
  assert (forall s : PINN, fitted self s -> q s = Z.max q0 1) as Hinv.
  { intros s Hs. induction Hs as [|s s' x0 u0 x1 u1 E lg' r Hs IH Hfit];
      [exact Hq|].
    destruct (fit_data _ _ _ _ _ _ _ Hfit) as (Hq' & _). congruence. }
  intros s Hs. split; [apply Hinv, Hs|].
  intros x0 u0 x1 u1 E log_epochs s' r Hfit.
  destruct (fit_data _ _ _ _ _ _ _ Hfit)
    as (_ & _ & _ & _ & _ & _ & Hd0 & Hd1 & _).
  rewrite (Hinv s Hs) in Hd0, Hd1.
  split; [exact Hd0|]. split; [exact Hd1 | lia].
Qed.

End Properties.

(** * Over the reals *)

Section Reals.
Context {O : Type} `{Backend R O}.
Local Open Scope R_scope.

Lemma Q2R_0 : Q2R 0 = 0.
Proof. unfold Q2R. simpl. lra. Qed.

Lemma fold_left_Rplus_scal (c : R) (g : nat -> R) (l : list nat) :
  forall a : R,
    fold_left Rplus (map (fun i => c * g i) l) (c * a)
    = c * fold_left Rplus (map g l) a.
Proof.
  induction l as [|i l IH]; intros a; simpl; [reflexivity|].
  rewrite <- IH. f_equal. ring.
Qed.

Lemma fsum_scal (k : nat) (c : R) (g : nat -> R) :
  fsum k (fun i => c * g i) = c * fsum k g.
Proof.
  unfold fsum, fsum_list. simpl flit. rewrite <- fold_left_Rplus_scal.
  f_equal. rewrite Q2R_0. ring.
Qed.

(** [exp] is as small as wanted far enough to the left, uniformly over
    finitely many factors. *)
Lemma exp_small (c eps : R) :
  0 < eps -> exists L, forall lam, lam < L -> Rabs (exp lam * c) < eps.
Proof.
  intros Heps.
  assert (0 < 1 + Rabs c) as Hpos by (pose proof (Rabs_pos c); lra).
  assert (0 < eps / (1 + Rabs c)) as Hq by (apply Rdiv_lt_0_compat; assumption).
  exists (ln (eps / (1 + Rabs c))). intros lam Hlam.
  apply exp_increasing in Hlam. rewrite (exp_ln _ Hq) in Hlam.
  rewrite Rabs_mult, (Rabs_pos_eq (exp lam)) by (left; apply exp_pos).
  pose proof (exp_pos lam) as He. pose proof (Rabs_pos c) as Hc.
  apply Rle_lt_trans with (exp lam * (1 + Rabs c)); [nra|].
  apply (Rmult_lt_compat_r (1 + Rabs c)) in Hlam; [|exact Hpos].
  unfold Rdiv in Hlam. rewrite Rmult_assoc, Rinv_l, Rmult_1_r in Hlam by lra.
  exact Hlam.
Qed.

Lemma exp_small_list (cs : list R) (eps : R) :
  0 < eps ->
  exists L, forall lam, lam < L -> forall c, In c cs -> Rabs (exp lam * c) < eps.
Proof.
  intros Heps. induction cs as [|c cs [L IH]].
  - exists 0. intros lam _ c [].
  - destruct (exp_small c Heps) as [Lc Hc].
    exists (Rmin L Lc). intros lam Hlam c' [<- | Hin].
    + apply Hc. pose proof (Rmin_r L Lc). lra.
    + apply IH; [|exact Hin]. pose proof (Rmin_l L Lc). lra.
Qed.

Lemma exp_small_entries (n k : nat) (f : nat -> nat -> R) (eps : R) :
  0 < eps ->
  exists L, forall lam, lam < L ->
    forall i j, (i < n)%nat -> (j < k)%nat -> Rabs (exp lam * f i j) < eps.
Proof.
  intros Heps.
  destruct (exp_small_list
              (flat_map (fun i => map (f i) (seq 0 k)) (seq 0 n)) Heps)
    as [L HL].
  exists L. intros lam Hlam i j Hi Hj. apply (HL lam Hlam).
  apply in_flat_map. exists i. split; [apply in_seq; lia|].
  apply in_map, in_seq. lia.
Qed.

Lemma autograd_with_variables (self : PhysicsInformedNN R O)
    (a b U x d : tensor R) :
  __autograd (with_variables self (U_model self) a b) U x d
  = __autograd self U x d.
Proof. reflexivity. Qed.

(** C7. With [lambda_1 = 0], as the diffusion coefficient [exp(lambda_2)] is
    taken to 0 (that is, as [lambda_2] goes to minus infinity) the residual of
    either slice goes to zero and both stage predictors go to the raw network
    output [U], uniformly over the batch: for every tolerance there is a [L]
    such that for all [lambda_2 < L] every entry of [N] is within the tolerance
    of 0 and every entry of either prediction within the tolerance of the
    entry of [U]. *)
Theorem stage_predictors_identity_limit (self : PhysicsInformedNN R O)
    (x d0 d1 : tensor R) (n k : nat) (l1 : R)
    (U Ux0 Uxx0 Ux1 Uxx1 alpha D : list (list R)) :
  lambda_1 self = Some (Vec [l1]) -> l1 = 0 ->
  dummy_x_0 self = Some d0 -> dummy_x_1 self = Some d1 ->
  IRK_alpha self = Mat alpha ->
  tf_sub (IRK_beta self) (IRK_alpha self) = Ok (Mat D) ->
  Sequential_call (U_model self) x = Ok (Mat U) ->
  __autograd self (Mat U) x d0 = Ok (Mat Ux0, Mat Uxx0) ->
  __autograd self (Mat U) x d1 = Ok (Mat Ux1, Mat Uxx1) ->
  has_shape n k U ->
  has_shape n k Ux0 -> has_shape n k Uxx0 ->
  has_shape n k Ux1 -> has_shape n k Uxx1 ->
  has_shape k k alpha -> has_shape k k D ->
  forall eps : R, 0 < eps ->
  exists L : R, forall lam2 : R, lam2 < L ->
    let self' := with_variables self (U_model self) (Vec [l1]) (Vec [lam2]) in
    exists N0 N1 P0 P1,
      N_0 (Vec [l1]) (tf_exp (Vec [lam2])) (Mat U) (Mat Ux0) (Mat Uxx0)
        = Ok (Mat N0)
      /\ N_1 (Vec [l1]) (tf_exp (Vec [lam2])) (Mat U) (Mat Ux1) (Mat Uxx1)
         = Ok (Mat N1)
      /\ U_0_model self' x = Ok (Mat P0)
      /\ U_1_model self' x = Ok (Mat P1)
      /\ forall i j, (i < n)%nat -> (j < k)%nat ->
           Rabs (entry N0 i j) < eps
           /\ Rabs (entry N1 i j) < eps
           /\ Rabs (entry P0 i j - entry U i j) < eps
           /\ Rabs (entry P1 i j - entry U i j) < eps.
Proof.
  intros Hl1 Hzero Hd0 Hd1 Ha HD HU Hg0 Hg1 HsU HsUx0 HsUxx0 HsUx1 HsUxx1
         Hsa HsD eps Heps.
  destruct (exp_small_entries n k (fun i j => - entry Uxx0 i j) Heps)
    as [La HLa].
  destruct (exp_small_entries n k (fun i j => entry Uxx1 i j) Heps)
    as [Lb HLb].
  destruct (exp_small_entries n k
              (fun i j => dt self * fsum k (fun l => - entry Uxx0 i l
                                                     * entry alpha j l)) Heps)
    as [Lc HLc].
  destruct (exp_small_entries n k
              (fun i j => dt self * fsum k (fun l => entry Uxx1 i l
                                                     * entry D j l)) Heps)
    as [Ld HLd].
  exists (Rmin (Rmin La Lb) (Rmin Lc Ld)). intros lam2 Hlam self'.
  assert (lam2 < La /\ lam2 < Lb /\ lam2 < Lc /\ lam2 < Ld)
    as (Hlama & Hlamb & Hlamc & Hlamd).
  { pose proof (Rmin_l (Rmin La Lb) (Rmin Lc Ld)).
    pose proof (Rmin_r (Rmin La Lb) (Rmin Lc Ld)).
    pose proof (Rmin_l La Lb). pose proof (Rmin_r La Lb).
    pose proof (Rmin_l Lc Ld). pose proof (Rmin_r Lc Ld).
    repeat split; lra. }
  destruct (@U_0_model_value R _ O _ self' x d0 n k l1 lam2 U Ux0 Uxx0 alpha)
    as (N0 & P0 & HN0 & _ & HeN0 & HP0 & _ & HeP0);
    try assumption; try reflexivity.
  destruct (@U_1_model_value R _ O _ self' x d1 n k l1 lam2 U Ux1 Uxx1 D)
    as (N1 & P1 & HN1 & _ & HeN1 & HP1 & _ & HeP1);
    try assumption; try reflexivity.
  exists N0, N1, P0, P1.
  split; [exact HN0|]. split; [exact HN1|].
  split; [exact HP0|]. split; [exact HP1|].
  intros i j Hi Hj.
  rewrite (HeN0 i j Hi Hj), (HeN1 i j Hi Hj), (HeP0 i j Hi Hj),
    (HeP1 i j Hi Hj).
  unfold spec_stage, spec_N_0, spec_N_1. subst l1.
  cbn [fadd fsub fmul fneg fexp R_Scalar].
  repeat split.
  - replace (0 * entry U i j * entry Ux0 i j - exp lam2 * entry Uxx0 i j)
      with (exp lam2 * - entry Uxx0 i j) by ring.
    apply (HLa lam2 Hlama i j Hi Hj).
  - replace (- 0 * entry U i j * entry Ux1 i j + exp lam2 * entry Uxx1 i j)
      with (exp lam2 * entry Uxx1 i j) by ring.
    apply (HLb lam2 Hlamb i j Hi Hj).
  - rewrite (@fsum_ext R R_Scalar k _
               (fun l => exp lam2 * (- entry Uxx0 i l * entry alpha j l)))
      by (intros l _; ring).
    rewrite fsum_scal.
    match goal with
    | |- Rabs (?u + ?c * (?e * ?s) - ?u) < _ =>
        replace (u + c * (e * s) - u) with (e * (c * s)) by ring
    end.
    apply (HLc lam2 Hlamc i j Hi Hj).
  - rewrite (@fsum_ext R R_Scalar k _
               (fun l => exp lam2 * (entry Uxx1 i l * entry D j l)))
      by (intros l _; ring).
    rewrite fsum_scal.
    match goal with
    | |- Rabs (?u + ?c * (?e * ?s) - ?u) < _ =>
        replace (u + c * (e * s) - u) with (e * (c * s)) by ring
    end.
    apply (HLd lam2 Hlamd i j Hi Hj).
Qed.

End Reals.

(** * Concrete runs over the reals *)

Section Concrete.
Local Open Scope R_scope.

Lemma tanh_lt_1 (x : R) : tanh x < 1.
Proof.
  unfold tanh, sinh, cosh.
  pose proof (exp_pos x) as Ha. pose proof (exp_pos (- x)) as Hb.
  set (a := exp x) in *. set (b := exp (- x)) in *.
  apply (Rmult_lt_reg_r ((a + b) / 2)); [lra|].
  unfold Rdiv at 1. rewrite Rmult_assoc, Rinv_l by lra. lra.
Qed.

Lemma shape_width_unique (n k k' : nat) (m : list (list R)) :
  has_shape n k m -> has_shape n k' m -> (0 < n)%nat -> k = k'.
Proof.
  intros [Hn Hk] [_ Hk'] Hpos. destruct m as [|r m]; simpl in *; [lia|].
  inversion Hk; inversion Hk'; congruence.
Qed.

(** C8. The error metric computes both percentage errors and returns only the
    one of [lambda_1]: its result does not depend on the recovered diffusion
    coefficient. With [lambda_1] recovered exactly and a diffusion coefficient
    of 0 it returns 0, while the error of the diffusion coefficient is 100
    percent. *)
Theorem error_returns_lambda_1_only :
  (forall x_star u_star u_star' : R, error x_star u_star = error x_star u_star')
  /\ error 1 0 = 0
  /\ error_lambda_2 0 = 100.
Proof.
  split; [reflexivity|]. split.
  - unfold error. cbn [fmul fdiv fabs fsub flit R_Scalar].
    replace (1 - Q2R 1) with 0 by (unfold Q2R; simpl; lra).
    rewrite Rabs_R0. unfold Rdiv. ring.
  - unfold error_lambda_2. cbn [fmul fdiv fabs fsub flit fpi R_Scalar].
    assert (0 < Q2R (1 # 100) / PI) as Hnu.
    { apply Rdiv_lt_0_compat; [unfold Q2R; simpl; lra | apply PI_RGT_0]. }
    set (nu := Q2R (1 # 100) / PI) in *.
    replace (0 - nu) with (- nu) by ring.
    rewrite Rabs_Ropp, (Rabs_pos_eq nu) by lra.
    unfold Rdiv. rewrite Rinv_r by lra.
    unfold Q2R. simpl. lra.
Qed.

(** C5, as stated, fails: a network of one layer with kernel 1 and bias 0 maps
    the input 1 to [tanh v] for the affine result [v = 1], and [tanh 1] is not
    1. *)
Lemma output_layer_not_affine :
  let l : Dense R := ([[1]], [0]) in
  let x : tensor R := Mat [[1]] in
  exists v : R,
    dense_affine l x = Ok (Mat [[v]])
    /\ Sequential_call [l] x = Ok (Mat [[tanh v]])
    /\ Sequential_call [l] x <> dense_affine l x.
Proof.
  intros l x. exists (Q2R 0 + 1 * 1 + 0).
  assert (dense_affine l x = Ok (Mat [[Q2R 0 + 1 * 1 + 0]])) as Haff
    by reflexivity.
  assert (Sequential_call [l] x = Ok (Mat [[tanh (Q2R 0 + 1 * 1 + 0)]]))
    as Hout by reflexivity.
  split; [exact Haff|]. split; [exact Hout|].
  rewrite Haff, Hout. intros Heq. inversion Heq as [Hv].
  replace (Q2R 0 + 1 * 1 + 0) with 1 in Hv by (rewrite Q2R_0; ring).
  pose proof (tanh_lt_1 1). lra.
Qed.

(** C6, as stated, fails: for [q = 2] the network the script builds maps a
    batch of one point to a [1 x 2] matrix, not to a [1 x 3] one. *)
Lemma approximator_width_is_not_q_plus_1 :
  exists (self : PhysicsInformedNN R unit) (U : list (list R)),
    __init__ demo_sample (layers 2) tt [] (/ 2) (Vec [-1]) (Vec [1]) 2
             (Mat [[1; 0]; [1; 1]]) (Mat [[1; 1]; [2; 1]]) = Ok self
    /\ Sequential_call (U_model self) (Mat [[0]]) = Ok (Mat U)
    /\ has_shape 1 2 U
    /\ ~ has_shape 1 (2 + 1) U.
Proof.
  destruct (@script_network_shape R _ demo_sample 2 1 [[0]])
    as (U & HU & HsU); [split; [reflexivity | repeat constructor]|].
  eexists. exists U. split; [reflexivity|].
  split; [exact HU|]. split; [exact HsU|].
  intros Hs3. pose proof (shape_width_unique HsU Hs3). lia.
Qed.

Ltac shape_ok := split; [reflexivity | repeat constructor].

(** C1 on the small instance. *)
Lemma U_0_model_correct_witness :
  exists P : list (list R),
    U_0_model demo_ready demo_x = Ok (Mat P) /\ has_shape 2 2 P.
Proof.
  edestruct (@U_0_model_correct R _ unit _ demo_ready demo_x)
    with (n := 2%nat) (k := 2%nat)
    as (N & P & _ & _ & _ & HP & HsP & _);
    [reflexivity | reflexivity | reflexivity | reflexivity | reflexivity
    | reflexivity | shape_ok | shape_ok | shape_ok | shape_ok |].
  exists P. split; assumption.
Defined.

(** C2 on the small instance. *)
Lemma U_1_model_correct_witness :
  exists P : list (list R),
    U_1_model demo_ready demo_x = Ok (Mat P) /\ has_shape 2 2 P.
Proof.
  edestruct (@U_1_model_correct R _ unit _ demo_ready demo_x)
    with (n := 2%nat) (k := 2%nat)
    as (N & P & _ & _ & _ & HP & HsP & _);
    [reflexivity | reflexivity | reflexivity | reflexivity | reflexivity
    | reflexivity | shape_ok | shape_ok | shape_ok | shape_ok |].
  exists P. split; assumption.
Defined.

(** C6 on a batch of three points, for [q = 2]. *)
Lemma approximator_output_shape_witness :
  exists (self : PhysicsInformedNN R unit) (U : list (list R)),
    __init__ demo_sample (layers 2) tt [] (/ 2) (Vec [-1]) (Vec [1]) 2
             (Mat [[1; 0]; [1; 1]]) (Mat [[1; 1]; [2; 1]]) = Ok self
    /\ Sequential_call (U_model self) (Mat [[0]; [/ 2]; [1]]) = Ok (Mat U)
    /\ has_shape 3 2 U.
Proof.
  assert ({self : PhysicsInformedNN R unit
          | __init__ demo_sample (layers 2) tt [] (/ 2) (Vec [-1]) (Vec [1]) 2
              (Mat [[1; 0]; [1; 1]]) (Mat [[1; 1]; [2; 1]]) = Ok self})
    as [self Hinit] by (eexists; reflexivity).
  assert (has_shape 3 1 [[0]; [/ 2]; [1]]) as Hx by shape_ok.
  destruct (approximator_output_shape Hinit Hx)
    as (_ & U & HU & HsU).
  exists self, U. split; [exact Hinit|]. split; [exact HU | exact HsU].
Defined.

(** C7 on the small instance, with tolerance 1. *)
Lemma stage_predictors_identity_limit_witness :
  exists (U : list (list R)) (L : R),
    Sequential_call (U_model demo_ready) demo_x = Ok (Mat U)
    /\ forall lam2 : R, lam2 < L ->
         exists P0 P1,
           U_0_model (with_variables demo_ready (U_model demo_ready)
                        (Vec [Q2R 0]) (Vec [lam2])) demo_x = Ok (Mat P0)
           /\ U_1_model (with_variables demo_ready (U_model demo_ready)
                           (Vec [Q2R 0]) (Vec [lam2])) demo_x = Ok (Mat P1)
           /\ forall i j, (i < 2)%nat -> (j < 2)%nat ->
                Rabs (entry P0 i j - entry U i j) < 1
                /\ Rabs (entry P1 i j - entry U i j) < 1.
Proof.
  eexists.
  edestruct (@stage_predictors_identity_limit unit _ demo_ready demo_x)
    with (n := 2%nat) (k := 2%nat) (eps := 1)
    as (L & HL);
    [reflexivity | apply Q2R_0 | reflexivity | reflexivity | reflexivity
    | reflexivity | reflexivity | reflexivity | reflexivity
    | shape_ok | shape_ok | shape_ok | shape_ok | shape_ok | shape_ok
    | shape_ok | lra |].
  exists L. split; [reflexivity|]. intros lam2 Hlam.
  destruct (HL lam2 Hlam) as (N0 & N1 & P0 & P1 & _ & _ & HP0 & HP1 & Hent).
  exists P0, P1. split; [exact HP0|]. split; [exact HP1|].
  intros i j Hi Hj. destruct (Hent i j Hi Hj) as (_ & _ & H0 & H1).
  split; assumption.
Defined.

(** C10 on a constructor call with the stage count -3. *)
Lemma stage_count_clamped_witness :
  exists self : PhysicsInformedNN R unit,
    __init__ demo_sample [1; 2]%nat tt [] (/ 2) (Vec [-1]) (Vec [1]) (-3)
             (Mat [[1]]) (Mat [[1]]) = Ok self
    /\ q self = 1%Z
    /\ forall s' r,
         fit demo_x demo_u demo_x demo_u 1 50 self = (s', r) ->
         dummy_x_0 s' = Some (tf_ones 2 1).
Proof.
  eexists.
  edestruct (@stage_count_clamped R _ unit _ demo_sample [1; 2]%nat tt []
               (/ 2) (Vec [-1]) (Vec [1]) (Mat [[1]]) (Mat [[1]]) (-3))
    as (Hq & _ & Hinv); [reflexivity|].
  split; [reflexivity|]. split; [exact Hq|].
  intros s' r Hfit.
  destruct (Hinv _ (fitted_refl _)) as (_ & Hfits).
  destruct (Hfits _ _ _ _ _ _ _ _ Hfit) as (Hd0 & _ & _).
  exact Hd0.
Defined.

End Concrete.

(** * More on the training driver *)

Section DriverExtras.
Context {A : Type} `{Scalar A}.
Context {O : Type} `{Backend A O}.

Local Notation "'PINN'" := (PhysicsInformedNN A O).

(** What a pass through the loop body that returns has done, step by step. *)
Lemma epoch_body_ok_inv (log_epochs epoch : Z) (s s' : PINN) :
  epoch_body log_epochs epoch s = (s', Ok tt) ->
  exists x0 u0 x1 u1 loss_value grads var o vals s2,
    x_0 s = Some x0 /\ u_0 s = Some u0 /\ x_1 s = Some x1 /\ u_1 s = Some u1
    /\ __grad (record_call (grad_call x0 u0 x1 u1) s) x0 u0 x1 u1
       = Ok (loss_value, grads)
    /\ __wrap_training_variables s = Ok var
    /\ apply_gradients (optimizer s) (combine grads var) = Ok (o, vals)
    /\ assign_variables
         (set_optimizer o
            (record_call (apply_call grads var)
               (record_call (grad_call x0 u0 x1 u1) s)))
         (vals ++ skipn (length vals) var) = Ok s2
    /\ log_epochs <> 0%Z
    /\ (((epoch mod log_epochs)%Z = 0%Z
         /\ exists l1 l2,
              get_params_numpy s2 = Ok (l1, l2)
              /\ s' = log (log_train_epoch epoch loss_value l1 l2) s2)
        \/ ((epoch mod log_epochs)%Z <> 0%Z /\ s' = s2)).
Proof.
  unfold epoch_body. intros Hrun.
  apply bind_action_inv in Hrun.
  destruct Hrun as [(x0 & s1 & Hread & Hrun) | (e & _ & Hr)]; [|discriminate].
  apply read_inv in Hread. destruct Hread as [-> Hx0].
  apply bind_action_inv in Hrun.
  destruct Hrun as [(u0 & s1 & Hread & Hrun) | (e & _ & Hr)]; [|discriminate].
  apply read_inv in Hread. destruct Hread as [-> Hu0].
  apply bind_action_inv in Hrun.
  destruct Hrun as [(x1 & s1 & Hread & Hrun) | (e & _ & Hr)]; [|discriminate].
  apply read_inv in Hread. destruct Hread as [-> Hx1].
  apply bind_action_inv in Hrun.
  destruct Hrun as [(u1 & s1 & Hread & Hrun) | (e & _ & Hr)]; [|discriminate].
  apply read_inv in Hread. destruct Hread as [-> Hu1].
  apply getattr_inv in Hx0, Hu0, Hx1, Hu1.
  apply bind_action_inv in Hrun.
  destruct Hrun as [(u & s1 & Hupd & Hrun) | (e & _ & Hr)]; [|discriminate].
  apply update_inv in Hupd. destruct Hupd as [-> _].
  apply bind_action_inv in Hrun.
  destruct Hrun as [([loss_value grads] & s1 & Hread & Hrun) | (e & _ & Hr)];
    [|discriminate].
  apply read_inv in Hread. destruct Hread as [-> Hgrad].
  apply bind_action_inv in Hrun.
  destruct Hrun as [(done & s2 & Hopt & Hrun) | (e & _ & Hr)]; [|discriminate].
  unfold optimizer_apply_gradients in Hopt.
  apply bind_action_inv in Hopt.
  destruct Hopt as [(var & s1 & Hread & Hopt) | (e & _ & Hr)]; [|discriminate].
  apply read_inv in Hread. destruct Hread as [-> Hvar].
  apply bind_action_inv in Hopt.
  destruct Hopt as [(u' & s1 & Hupd & Hopt) | (e & _ & Hr)]; [|discriminate].
  apply update_inv in Hupd. destruct Hupd as [-> _].
  apply bind_action_inv in Hopt.
  destruct Hopt as [([o vals] & s1 & Hread & Hopt) | (e & _ & Hr)];
    [|discriminate].
  apply read_inv in Hread. destruct Hread as [-> Happly].
  apply bind_action_inv in Hopt.
  destruct Hopt as [(u'' & s1 & Hupd & Hopt) | (e & _ & Hr)]; [|discriminate].
  apply update_inv in Hupd. destruct Hupd as [-> _].
  unfold try_update in Hopt.
  match type of Hopt with
  | context [assign_variables ?t ?v] =>
      destruct (assign_variables t v) as [t'|e] eqn:Hassign
  end; inversion Hopt; subst.
  exists x0, u0, x1, u1, loss_value, grads, var, o, vals, s2.
  repeat (split; [first [assumption | symmetry; assumption]|]).
  destruct (Z.eqb_spec log_epochs 0) as [Hz|Hz].
  { unfold raise in Hrun. inversion Hrun. }
  split; [exact Hz|].
  destruct (Z.eqb_spec (epoch mod log_epochs) 0) as [Hm|Hm].
  - left. split; [exact Hm|].
    apply bind_action_inv in Hrun.
    destruct Hrun as [([l1 l2] & s3 & Hread & Hrun) | (e & _ & Hr)];
      [|discriminate].
    apply read_inv in Hread. destruct Hread as [-> Hp].
    apply update_inv in Hrun. destruct Hrun as [-> _].
    exists l1, l2. split; [symmetry; exact Hp | reflexivity].
  - right. split; [exact Hm|].
    unfold ret in Hrun. inversion Hrun. reflexivity.
Qed.

(** A property of the object that the four kinds of assignment keep is kept by
    the loop body, by the loop and by [fit], whether they return or raise. *)
Lemma epoch_body_preserves (P : PINN -> Prop) :
  (forall c s, P s -> P (record_call c s)) ->
  (forall o s, P s -> P (set_optimizer o s)) ->
  (forall ev s, P s -> P (log ev s)) ->
  (forall s vals s', P s -> assign_variables s vals = Ok s' -> P s') ->
  forall (log_epochs epoch : Z) (s s' : PINN) (r : result unit),
    epoch_body log_epochs epoch s = (s', r) -> P s -> P s'.
Proof.
  intros Hrec Hopt Hlog Hassign log_epochs epoch s s' r Hrun HP.
  unfold epoch_body in Hrun.
  apply bind_action_inv in Hrun.
  destruct Hrun as [(x0 & s1 & Hread & Hrun) | (e & Hread & _)];
    apply read_inv in Hread; destruct Hread as [-> _]; [|exact HP].
  apply bind_action_inv in Hrun.
  destruct Hrun as [(u0 & s1 & Hread & Hrun) | (e & Hread & _)];
    apply read_inv in Hread; destruct Hread as [-> _]; [|exact HP].
  apply bind_action_inv in Hrun.
  destruct Hrun as [(x1 & s1 & Hread & Hrun) | (e & Hread & _)];
    apply read_inv in Hread; destruct Hread as [-> _]; [|exact HP].
  apply bind_action_inv in Hrun.
  destruct Hrun as [(u1 & s1 & Hread & Hrun) | (e & Hread & _)];
    apply read_inv in Hread; destruct Hread as [-> _]; [|exact HP].
  apply bind_action_inv in Hrun.
  destruct Hrun as [(u & s1 & Hupd & Hrun) | (e & Hupd & _)];
    apply update_inv in Hupd; destruct Hupd as [-> _];
    [|apply Hrec, HP].
  pose proof (Hrec (grad_call x0 u0 x1 u1) s HP) as HP1.
  apply bind_action_inv in Hrun.
  destruct Hrun as [([loss_value grads] & s1 & Hread & Hrun) | (e & Hread & _)];
    apply read_inv in Hread; destruct Hread as [-> _]; [|exact HP1].
  assert (forall t t' rr, optimizer_apply_gradients grads t = (t', rr) ->
                          P t -> P t') as Hstep.
  { intros t t' rr Ho HPt. unfold optimizer_apply_gradients in Ho.
    apply bind_action_inv in Ho.
    destruct Ho as [(var & t1 & Hread & Ho) | (e & Hread & _)];
      apply read_inv in Hread; destruct Hread as [-> _]; [|exact HPt].
    apply bind_action_inv in Ho.
    destruct Ho as [(v & t1 & Hupd & Ho) | (e & Hupd & _)];
      apply update_inv in Hupd; destruct Hupd as [-> _];
      [|apply Hrec, HPt].
    apply bind_action_inv in Ho.
    destruct Ho as [([o vals] & t1 & Hread & Ho) | (e & Hread & _)];
      apply read_inv in Hread; destruct Hread as [-> _];
      [|apply Hrec, HPt].
    apply bind_action_inv in Ho.
    destruct Ho as [(v' & t1 & Hupd & Ho) | (e & Hupd & _)];
      apply update_inv in Hupd; destruct Hupd as [-> _];
      [|apply Hopt, Hrec, HPt].
    unfold try_update in Ho.
    match type of Ho with
    | context [assign_variables ?a ?b] =>
        destruct (assign_variables a b) as [a'|e] eqn:Ha
    end; inversion Ho; subst.
    - eapply Hassign; [|exact Ha]. apply Hopt, Hrec, HPt.
    - apply Hopt, Hrec, HPt. }
  apply bind_action_inv in Hrun.
  destruct Hrun as [(done & s2 & Ho & Hrun) | (e & Ho & _)];
    apply Hstep in Ho; try exact HP1; [|exact Ho].
  destruct (Z.eqb log_epochs 0).
  { unfold raise in Hrun. inversion Hrun; subst. exact Ho. }
  destruct (Z.eqb (epoch mod log_epochs) 0).
  - apply bind_action_inv in Hrun.
    destruct Hrun as [([l1 l2] & s3 & Hread & Hrun) | (e & Hread & _)];
      apply read_inv in Hread; destruct Hread as [-> _]; [|exact Ho].
    apply update_inv in Hrun. destruct Hrun as [-> _]. apply Hlog, Ho.
  - unfold ret in Hrun. inversion Hrun; subst. exact Ho.
Qed.

Lemma fit_preserves (P : PINN -> Prop) :
  (forall c s, P s -> P (record_call c s)) ->
  (forall o s, P s -> P (set_optimizer o s)) ->
  (forall ev s, P s -> P (log ev s)) ->
  (forall s vals s', P s -> assign_variables s vals = Ok s' -> P s') ->
  forall (x0 u0 x1 u1 : tensor A) (epochs log_epochs : Z) (s s' : PINN)
         (r : result unit),
    fit x0 u0 x1 u1 epochs log_epochs s = (s', r) ->
    P (create_tensors x0 u0 x1 u1 (log log_train_start s)) -> P s'.
Proof.
  intros Hrec Hopt Hlog Hassign x0 u0 x1 u1 epochs log_epochs s s' r Hrun HP.
  unfold fit in Hrun.
  apply bind_action_inv in Hrun.
  destruct Hrun as [(u & s1 & Hupd & Hrun) | (e & Hupd & _)];
    apply update_inv in Hupd; destruct Hupd as [-> Hupd];
    [clear Hupd | discriminate].
  apply bind_action_inv in Hrun.
  destruct Hrun as [(u' & s2 & Hupd & Hrun) | (e & Hupd & _)];
    apply update_inv in Hupd; destruct Hupd as [-> Hupd];
    [clear Hupd | discriminate].
  assert (forall l t t' rr,
             for_each l (epoch_body log_epochs) t = (t', rr) -> P t -> P t')
    as Hloop.
  { induction l as [|epoch l IH]; intros t t' rr Hl HPt; simpl in Hl.
    - unfold ret in Hl. inversion Hl; subst. exact HPt.
    - apply bind_action_inv in Hl.
      destruct Hl as [(v & t1 & Hb & Hl) | (e & Hb & _)];
        apply (@epoch_body_preserves P Hrec Hopt Hlog Hassign) in Hb;
        try exact HPt; [|exact Hb].
      apply (IH t1 t' rr Hl Hb). }
  apply bind_action_inv in Hrun.
  destruct Hrun as [(u'' & s3 & Hl & Hrun) | (e & Hl & _)];
    apply Hloop in Hl; try exact HP; [|exact Hl].
  apply update_inv in Hrun. destruct Hrun as [-> _]. apply Hlog, Hl.
Qed.

Lemma bind_action_ok {S X Y : Type} (m : action S X) (k : X -> action S Y)
    (s s1 : S) (x : X) :
  m s = (s1, Ok x) -> bind_action m k s = k x s1.
Proof. intros Hm. unfold bind_action. rewrite Hm. reflexivity. Qed.

Lemma bind_action_raise {S X Y : Type} (m : action S X) (k : X -> action S Y)
    (s s1 : S) (e : exn) :
  m s = (s1, Raise e) -> bind_action m k s = (s1, Raise e).
Proof. intros Hm. unfold bind_action. rewrite Hm. reflexivity. Qed.

Lemma range_nonpos (n : Z) : (n <= 0)%Z -> range n = [].
Proof.
  intros Hn. unfold range.
  replace (Z.to_nat n) with 0%nat by lia. reflexivity.
Qed.

Lemma range_pos (n : Z) :
  (1 <= n)%Z -> exists l, range n = 0%Z :: l.
Proof.
  intros Hn. unfold range. destruct (Z.to_nat n) as [|k] eqn:Hk; [lia|].
  simpl. eexists. reflexivity.
Qed.

(** X1. A call of [fit] with an epoch count of zero or less returns at once:
    no gradient is computed and no update applied, the network and the
    optimizer are as before, [lambda_1] and [lambda_2] hold their initial
    values 0.0 and -6.0, and the log gained the start and the end entry. *)
Theorem fit_without_epochs (x0 u0 x1 u1 : tensor A) (E log_epochs : Z)
    (s s' : PINN) (r : result unit) :
  (E <= 0)%Z ->
  fit x0 u0 x1 u1 E log_epochs s = (s', r) ->
  r = Ok tt
  /\ calls s' = calls s /\ U_model s' = U_model s /\ optimizer s' = optimizer s
  /\ lambda_1 s' = Some (Vec [flit 0]) /\ lambda_2 s' = Some (Vec [flit (-6)])
  /\ logger s' = logger s ++ [log_train_start; log_train_end E].
Proof.
  intros HE Hrun. unfold fit in Hrun. rewrite (range_nonpos HE) in Hrun.
  unfold bind_action, update, for_each, ret in Hrun.
  inversion Hrun; subst. simpl. rewrite <- app_assoc.
  repeat split; reflexivity.
Qed.

(** X2. With [log_epochs = 0] and at least one epoch asked for, [fit] never
    returns: it raises in the first epoch, [epoch % log_epochs] being evaluated
    after the first optimizer step, so that at most one gradient computation
    and one update have been made. *)
Theorem fit_log_epochs_zero (x0 u0 x1 u1 : tensor A) (E : Z) (s s' : PINN)
    (r : result unit) :
  (1 <= E)%Z ->
  fit x0 u0 x1 u1 E 0 s = (s', r) ->
  (exists e, r = Raise e) /\ exists cs, extends_calls s s' 1 cs.
Proof.
  intros HE Hrun. unfold fit in Hrun.
  destruct (range_pos HE) as [l Hl]. rewrite Hl in Hrun.
  apply bind_action_inv in Hrun.
  destruct Hrun as [(u & s1 & Hupd & Hrun) | (e & Hupd & _)];
    apply update_inv in Hupd; destruct Hupd as [-> Hupd];
    [clear Hupd | discriminate].
  apply bind_action_inv in Hrun.
  destruct Hrun as [(u' & s2 & Hupd & Hrun) | (e & Hupd & _)];
    apply update_inv in Hupd; destruct Hupd as [-> Hupd];
    [clear Hupd | discriminate].
  apply bind_action_inv in Hrun.
  destruct Hrun as [(u'' & s3 & Hloop & Hrun) | (e & Hloop & ->)];
    simpl in Hloop; apply bind_action_inv in Hloop;
    destruct Hloop as [(v & s4 & Hbody & Hloop) | (e' & Hbody & He')].
  - destruct v. apply epoch_body_ok_inv in Hbody.
    destruct Hbody as (? & ? & ? & ? & ? & ? & ? & ? & ? & ? & _ & _ & _ & _
                       & _ & _ & _ & _ & Hz & _).
    contradiction Hz. reflexivity.
  - discriminate.
  - destruct v. apply epoch_body_ok_inv in Hbody.
    destruct Hbody as (? & ? & ? & ? & ? & ? & ? & ? & ? & ? & _ & _ & _ & _
                       & _ & _ & _ & _ & Hz & _).
    contradiction Hz. reflexivity.
  - split; [exists e; reflexivity|].
    apply epoch_body_spec in Hbody. destruct Hbody as (_ & cs & Hext & _).
    exists cs. exact Hext.
Qed.

(** X3. When the loss cannot be computed on the data given to [fit] (the
    network or a predictor raises, as on data of the wrong shape), [fit] with
    at least one epoch raises the same exception in the first epoch, before any
    update: the network and the optimizer are as before, the two parameters
    hold their initial values, one gradient computation was started and only
    the start entry was logged. *)
Theorem fit_loss_failure (x0 u0 x1 u1 : tensor A) (E log_epochs : Z) (s : PINN)
    (e : exn) :
  (1 <= E)%Z ->
  __loss (create_tensors x0 u0 x1 u1 s) x0 u0 x1 u1 = Raise e ->
  exists s',
    fit x0 u0 x1 u1 E log_epochs s = (s', Raise e)
    /\ U_model s' = U_model s /\ optimizer s' = optimizer s
    /\ lambda_1 s' = Some (Vec [flit 0]) /\ lambda_2 s' = Some (Vec [flit (-6)])
    /\ calls s' = calls s ++ [grad_call x0 u0 x1 u1]
    /\ logger s' = logger s ++ [log_train_start].
Proof.
  intros HE Hloss.
  exists (record_call (grad_call x0 u0 x1 u1)
            (create_tensors x0 u0 x1 u1 (log log_train_start s))).
  split; [|repeat split; reflexivity].
  unfold fit. destruct (range_pos HE) as [l ->].
  erewrite bind_action_ok by reflexivity.
  erewrite bind_action_ok by reflexivity.
  apply bind_action_raise. simpl for_each.
  apply bind_action_raise. unfold epoch_body.
  erewrite bind_action_ok by reflexivity.
  erewrite bind_action_ok by reflexivity.
  erewrite bind_action_ok by reflexivity.
  erewrite bind_action_ok by reflexivity.
  erewrite bind_action_ok by reflexivity.
  apply bind_action_raise. unfold read, __grad.
  change (__loss (record_call (grad_call x0 u0 x1 u1)
                    (create_tensors x0 u0 x1 u1 (log log_train_start s)))
                 x0 u0 x1 u1)
    with (__loss (create_tensors x0 u0 x1 u1 s) x0 u0 x1 u1).
  rewrite Hloss. reflexivity.
Qed.

Lemma grad_loss_value (t : PINN) (x0 u0 x1 u1 : tensor A) (loss_value : A)
    (grads : list (tensor A)) :
  __grad t x0 u0 x1 u1 = Ok (loss_value, grads) ->
  __loss t x0 u0 x1 u1 = Ok loss_value.
Proof.
  unfold __grad. destruct (__loss t x0 u0 x1 u1) as [v|e]; [|discriminate].
  cbn [bind]. destruct (__wrap_training_variables t); [|discriminate].
  cbn [bind]. destruct (tape_gradient_vars _ _); [|discriminate].
  cbn [bind]. intros Hok. inversion Hok. reflexivity.
Qed.

(** X4. An epoch that returns and is due for a report ([epoch % log_epochs]
    is 0) logs exactly one entry; the loss in it is the loss at the variables
    as they were before this epoch's update, the two parameters in it are
    [lambda_1] and [exp(lambda_2)] as they are after the update. *)
Theorem report_pairs_old_loss_with_new_parameters (log_epochs epoch : Z)
    (s s' : PINN) :
  epoch_body log_epochs epoch s = (s', Ok tt) ->
  (epoch mod log_epochs)%Z = 0%Z ->
  exists x0 u0 x1 u1 loss_value l1 l2,
    x_0 s = Some x0 /\ u_0 s = Some u0 /\ x_1 s = Some x1 /\ u_1 s = Some u1
    /\ __loss s x0 u0 x1 u1 = Ok loss_value
    /\ get_params_numpy s' = Ok (l1, l2)
    /\ logger s' = logger s ++ [log_train_epoch epoch loss_value l1 l2].
Proof.
  intros Hrun Hmod. apply epoch_body_ok_inv in Hrun.
  destruct Hrun as (x0 & u0 & x1 & u1 & loss_value & grads & var & o & vals
                    & s2 & Hx0 & Hu0 & Hx1 & Hu1 & Hgrad & _ & _ & Hassign & _
                    & [(_ & l1 & l2 & Hp & ->) | (Hno & _)]);
    [|contradiction].
  exists x0, u0, x1, u1, loss_value, l1, l2.
  repeat (split; [assumption|]).
  split; [exact (grad_loss_value _ _ _ _ _ Hgrad)|].
  split; [exact Hp|].
  destruct (assign_variables_data _ _ Hassign) as (_ & _ & Hl & _).
  simpl. rewrite Hl. reflexivity.
Qed.

Lemma epoch_body_logger (log_epochs epoch : Z) (s s' : PINN) :
  epoch_body log_epochs epoch s = (s', Ok tt) ->
  exists evs,
    logger s' = logger s ++ evs
    /\ Forall2 reports
         (filter (fun e => Z.eqb (e mod log_epochs) 0) [epoch]) evs.
Proof.
  intros Hrun. apply epoch_body_ok_inv in Hrun.
  destruct Hrun as (x0 & u0 & x1 & u1 & loss_value & grads & var & o & vals
                    & s2 & _ & _ & _ & _ & _ & _ & _ & Hassign & _ & Hcase).
  destruct (assign_variables_data _ _ Hassign) as (_ & _ & Hl & _).
  simpl in Hl. simpl filter.
  destruct Hcase as [(Hm & l1 & l2 & _ & ->) | (Hm & ->)].
  - rewrite Hm. simpl. exists [log_train_epoch epoch loss_value l1 l2].
    split; [rewrite Hl; reflexivity|].
    constructor; [|constructor]. exists loss_value, l1, l2. reflexivity.
  - apply Z.eqb_neq in Hm. rewrite Hm. exists [].
    split; [rewrite app_nil_r; exact Hl | constructor].
Qed.

Lemma training_loop_logger (log_epochs : Z) (l : list Z) :
  forall s s' : PINN,
    for_each l (epoch_body log_epochs) s = (s', Ok tt) ->
    exists evs,
      logger s' = logger s ++ evs
      /\ Forall2 reports
           (filter (fun e => Z.eqb (e mod log_epochs) 0) l) evs.
Proof.
  induction l as [|epoch l IH]; intros s s' Hrun; simpl in Hrun.
  - unfold ret in Hrun. inversion Hrun; subst. exists [].
    split; [rewrite app_nil_r; reflexivity | constructor].
  - apply bind_action_inv in Hrun.
    destruct Hrun as [([] & s1 & Hbody & Hrun) | (e & _ & Hr)]; [|discriminate].
    destruct (epoch_body_logger _ _ _ Hbody) as (ev1 & Hl1 & Hf1).
    destruct (IH s1 s' Hrun) as (ev2 & Hl2 & Hf2).
    exists (ev1 ++ ev2). split; [rewrite Hl2, Hl1, app_assoc; reflexivity|].
    change (epoch :: l) with ([epoch] ++ l). rewrite filter_app.
    apply Forall2_app; assumption.
Qed.

(** X5. A call of [fit] that returns has logged, in this order: the start
    entry, one progress report for each epoch of [range(E)] that is a multiple
    of [log_epochs], beginning with epoch 0, and the end entry. *)
Theorem fit_progress_reports (x0 u0 x1 u1 : tensor A) (E log_epochs : Z)
    (s s' : PINN) :
  fit x0 u0 x1 u1 E log_epochs s = (s', Ok tt) ->
  exists evs,
    logger s' = logger s ++ [log_train_start] ++ evs ++ [log_train_end E]
    /\ Forall2 reports (report_epochs E log_epochs) evs.
Proof.
  unfold fit. intros Hrun.
  apply bind_action_inv in Hrun.
  destruct Hrun as [(u & s1 & Hupd & Hrun) | (e & _ & Hr)]; [|discriminate].
  apply update_inv in Hupd. destruct Hupd as [-> _].
  apply bind_action_inv in Hrun.
  destruct Hrun as [(u' & s2 & Hupd & Hrun) | (e & _ & Hr)]; [|discriminate].
  apply update_inv in Hupd. destruct Hupd as [-> _].
  apply bind_action_inv in Hrun.
  destruct Hrun as [([] & s3 & Hloop & Hrun) | (e & _ & Hr)]; [|discriminate].
  apply update_inv in Hrun. destruct Hrun as [-> _].
  destruct (training_loop_logger _ _ _ Hloop) as (evs & Hl & Hf).
  exists evs. split; [|exact Hf].
  simpl. simpl in Hl. rewrite Hl, <- !app_assoc. reflexivity.
Qed.

(** X6. [fit] overwrites every attribute it creates: two objects that agree
    on the constructor's data, the network, the optimizer, the log and the
    call history behave alike under [fit], whatever data, parameters and dummy
    seeds an earlier call left in them. In particular a second call restarts
    [lambda_1] and [lambda_2] from 0.0 and -6.0. *)
Theorem fit_overwrites_its_attributes (x0 u0 x1 u1 : tensor A)
    (E log_epochs : Z) (s t : PINN) :
  lb s = lb t -> ub s = ub t -> dt s = dt t -> q s = q t ->
  IRK_alpha s = IRK_alpha t -> IRK_beta s = IRK_beta t ->
  U_model s = U_model t -> optimizer s = optimizer t ->
  logger s = logger t -> calls s = calls t ->
  fit x0 u0 x1 u1 E log_epochs s = fit x0 u0 x1 u1 E log_epochs t.
Proof.
  intros Hlb Hub Hdt Hq Ha Hb Hm Ho Hl Hc.
  assert (create_tensors x0 u0 x1 u1 (log log_train_start s)
          = create_tensors x0 u0 x1 u1 (log log_train_start t)) as Hready.
  { unfold create_tensors, log. simpl.
    rewrite Hlb, Hub, Hdt, Hq, Ha, Hb, Hm, Ho, Hl, Hc. reflexivity. }
  change (fit x0 u0 x1 u1 E log_epochs s)
    with (bind_action (for_each (range E) (epoch_body log_epochs))
            (fun _ => update (log (log_train_end E)))
            (create_tensors x0 u0 x1 u1 (log log_train_start s))).
  change (fit x0 u0 x1 u1 E log_epochs t)
    with (bind_action (for_each (range E) (epoch_body log_epochs))
            (fun _ => update (log (log_train_end E)))
            (create_tensors x0 u0 x1 u1 (log log_train_start t))).
  rewrite Hready. reflexivity.
Qed.

(** X7. The constructor's data never change: in every object reached from a
    constructed one by calls of [fit], returning or raising, the time step,
    the domain bounds and the two tableau matrices are those given to the
    constructor. *)
Theorem constructor_data_kept (sample : nat -> nat -> nat -> A)
    (layers0 : list nat) (opt : O) (lg : list (log_event A)) (dt0 : A)
    (lb0 ub0 alpha beta : tensor A) (q0 : Z) (self s : PINN) :
  __init__ sample layers0 opt lg dt0 lb0 ub0 q0 alpha beta = Ok self ->
  fitted self s ->
  dt s = dt0 /\ lb s = lb0 /\ ub s = ub0
  /\ IRK_alpha s = alpha /\ IRK_beta s = beta.
Proof.
  intros Hinit Hs.
  induction Hs as [|s s' x0 u0 x1 u1 E lg' r Hs IH Hfit].
  - unfold __init__ in Hinit. destruct layers0; [discriminate|].
    inversion Hinit; subst. simpl. repeat split; reflexivity.
  - destruct (fit_data _ _ _ _ _ _ _ Hfit)
      as (_ & Hdt & Hlb & Hub & Ha & Hb & _).
    destruct IH as (IHdt & IHlb & IHub & IHa & IHb).
    repeat split; congruence.
Qed.

(** X8. Before the first call of [fit] the attributes it creates do not exist:
    on a freshly constructed object the parameter queries and the list of
    training variables raise [AttributeError], and so do both predictors and
    [predict] on any batch the network accepts. *)
Theorem methods_before_fit_raise (sample : nat -> nat -> nat -> A)
    (layers0 : list nat) (opt : O) (lg : list (log_event A)) (dt0 : A)
    (lb0 ub0 alpha beta : tensor A) (q0 : Z) (self : PINN) :
  __init__ sample layers0 opt lg dt0 lb0 ub0 q0 alpha beta = Ok self ->
  get_params self = Raise AttributeError
  /\ get_params_numpy self = Raise AttributeError
  /\ __wrap_training_variables self = Raise AttributeError
  /\ forall x U,
       Sequential_call (U_model self) x = Ok U ->
       U_0_model self x = Raise AttributeError
       /\ U_1_model self x = Raise AttributeError
       /\ predict self x = Raise AttributeError.
Proof.
  intros Hinit. unfold __init__ in Hinit. destruct layers0; [discriminate|].
  inversion Hinit; subst.
  split; [reflexivity|]. split; [reflexivity|]. split; [reflexivity|].
  intros x U HU. simpl in HU.
  assert (U_0_model
            {| lb := lb0; ub := ub0; dt := dt0; q := Z.max q0 1;
               IRK_alpha := alpha; IRK_beta := beta;
               U_model := add_layers sample 0 n layers0;
               optimizer := opt; logger := lg; calls := [];
               x_0 := None; u_0 := None; x_1 := None; u_1 := None;
               lambda_1 := None; lambda_2 := None;
               dummy_x_0 := None; dummy_x_1 := None |} x
          = Raise AttributeError) as H0'.
  { unfold U_0_model. simpl U_model. rewrite HU. reflexivity. }
  split; [exact H0'|]. split.
  - unfold U_1_model. simpl U_model. rewrite HU. reflexivity.
  - unfold predict. rewrite H0'. reflexivity.
Qed.

(** X9. After a call of [fit], whether it returned or raised, the object holds
    the data it was called with and both parameters exist, so that the
    parameter query and the list of training variables return. *)
Theorem attributes_after_fit (x0 u0 x1 u1 : tensor A) (E log_epochs : Z)
    (s s' : PINN) (r : result unit) :
  fit x0 u0 x1 u1 E log_epochs s = (s', r) ->
  x_0 s' = Some x0 /\ u_0 s' = Some u0 /\ x_1 s' = Some x1 /\ u_1 s' = Some u1
  /\ exists l1 l2,
       lambda_1 s' = Some l1 /\ lambda_2 s' = Some l2
       /\ get_params s' = Ok (l1, tf_exp l2)
       /\ __wrap_training_variables s'
          = Ok (trainable_variables (U_model s') ++ [l1; l2]).
Proof.
  intros Hrun.
  pose (P := fun t : PINN =>
               x_0 t = Some x0 /\ u_0 t = Some u0 /\ x_1 t = Some x1
               /\ u_1 t = Some u1
               /\ exists l1 l2, lambda_1 t = Some l1 /\ lambda_2 t = Some l2).
  assert (forall t vals t', P t -> assign_variables t vals = Ok t' -> P t')
    as Hassign.
  { unfold P. intros t vals t' (Ex0 & Eu0 & Ex1 & Eu1 & _) Hassign.
    destruct (assign_variables_data _ _ Hassign) as (Hd & _).
    unfold same_data in Hd. decompose [and] Hd.
    repeat (split; [congruence|]).
    unfold assign_variables in Hassign.
    destruct (assign_weights (U_model t) vals) as [[model rest]|]; simpl in *;
      [|discriminate].
    destruct rest as [|a [|b [|? ?]]]; try discriminate.
    inversion Hassign; subst. exists a, b. split; reflexivity. }
  assert (P s') as (Hx0 & Hu0 & Hx1 & Hu1 & l1 & l2 & Hl1 & Hl2).
  { apply (@fit_preserves P (fun c t Ht => Ht) (fun o t Ht => Ht)
             (fun ev t Ht => Ht) Hassign x0 u0 x1 u1 E log_epochs s s' r Hrun).
    unfold P. simpl. repeat (split; [reflexivity|]).
    eexists. eexists. split; reflexivity. }
  repeat (split; [assumption|]).
  exists l1, l2. split; [exact Hl1|]. split; [exact Hl2|].
  unfold get_params, __wrap_training_variables. rewrite Hl1, Hl2.
  split; reflexivity.
Qed.

Lemma add_layers_length (sample : nat -> nat -> nat -> A) (widths : list nat) :
  forall k d, length (add_layers sample k d widths) = length widths.
Proof.
  induction widths as [|w widths IH]; intros k d; simpl; [reflexivity|].
  rewrite IH. reflexivity.
Qed.

Lemma add_layers_bias_zero (sample : nat -> nat -> nat -> A)
    (widths : list nat) :
  forall k d,
    Forall (fun l : Dense A => Forall (fun b => b = flit 0) (snd l))
           (add_layers sample k d widths).
Proof.
  induction widths as [|w widths IH]; intros k d; simpl; constructor.
  - simpl. apply Forall_forall. intros b Hb.
    apply repeat_spec in Hb. exact Hb.
  - apply IH.
Qed.

Lemma trainable_variables_length (model : Sequential A) :
  length (trainable_variables model) = (2 * length model)%nat.
Proof.
  induction model as [|l model IH]; [reflexivity|].
  change (trainable_variables (l :: model))
    with (Mat (fst l) :: Vec (snd l) :: trainable_variables model).
  simpl length. rewrite IH. simpl. lia.
Qed.

(** X10. The constructor builds one [Dense] layer per item of [layers[1:]]:
    layer [i] has a kernel of shape [layers[i] x layers[i+1]] and a bias of
    [layers[i+1]] zeros, and the network has two training variables per
    layer. *)
Theorem constructor_network (sample : nat -> nat -> nat -> A)
    (input_dim : nat) (widths : list nat) (opt : O) (lg : list (log_event A))
    (dt0 : A) (lb0 ub0 alpha beta : tensor A) (q0 : Z) :
  exists self : PINN,
    __init__ sample (input_dim :: widths) opt lg dt0 lb0 ub0 q0 alpha beta
    = Ok self
    /\ length (U_model self) = length widths
    /\ weights_shape input_dim widths (U_model self)
    /\ Forall (fun l : Dense A => Forall (fun b => b = flit 0) (snd l))
              (U_model self)
    /\ length (trainable_variables (U_model self)) = (2 * length widths)%nat.
Proof.
  eexists. split; [reflexivity|]. simpl U_model.
  split; [apply add_layers_length|].
  split; [apply add_layers_shape|].
  split; [apply add_layers_bias_zero|].
  rewrite trainable_variables_length, add_layers_length. reflexivity.
Qed.

End DriverExtras.

(** * More over the reals *)

Section RealsExtras.
Context {O : Type} `{Backend R O}.
Local Open Scope R_scope.

(** X13. On the same tensors the slice-1 residual is the negative of the
    slice-0 residual, entry by entry. *)
Theorem N_1_is_minus_N_0 (n k : nat) (l1 l2 : R) (U U_x U_xx : list (list R)) :
  has_shape n k U -> has_shape n k U_x -> has_shape n k U_xx ->
  exists N0 N1,
    N_0 (Vec [l1]) (Vec [l2]) (Mat U) (Mat U_x) (Mat U_xx) = Ok (Mat N0)
    /\ N_1 (Vec [l1]) (Vec [l2]) (Mat U) (Mat U_x) (Mat U_xx) = Ok (Mat N1)
    /\ has_shape n k N0 /\ has_shape n k N1
    /\ forall i j, (i < n)%nat -> (j < k)%nat -> entry N1 i j = - entry N0 i j.
Proof.
  intros HU HUx HUxx.
  destruct (N_0_spec l1 l2 HU HUx HUxx) as (N0 & HN0 & Hs0 & He0).
  destruct (N_1_spec l1 l2 HU HUx HUxx) as (N1 & HN1 & Hs1 & He1).
  exists N0, N1. repeat (split; [assumption|]).
  intros i j Hi Hj. rewrite (He0 i j Hi Hj), (He1 i j Hi Hj).
  unfold spec_N_0, spec_N_1. cbn [fadd fsub fmul fneg R_Scalar]. ring.
Qed.

End RealsExtras.

(** * More concrete runs over the reals *)

Section ConcreteExtras.
Local Open Scope R_scope.

Ltac check_shape := split; [reflexivity | repeat constructor].

(** X1 on the small instance, with the epoch count -3. *)
Lemma fit_without_epochs_witness :
  exists s' : PhysicsInformedNN R unit,
    fit demo_x demo_u demo_x demo_u (-3) 50 demo_pinn = (s', Ok tt)
    /\ calls s' = []
    /\ logger s' = [log_train_start; log_train_end (-3)].
Proof.
  assert ({p : PhysicsInformedNN R unit * result unit
          | fit demo_x demo_u demo_x demo_u (-3) 50 demo_pinn = p})
    as [[s' r] Hrun] by (eexists; reflexivity).
  destruct (@fit_without_epochs R _ unit _ demo_x demo_u demo_x demo_u (-3) 50
              demo_pinn s' r ltac:(lia) Hrun)
    as (-> & Hc & _ & _ & _ & _ & Hl).
  exists s'. split; [exact Hrun|]. split; [exact Hc | exact Hl].
Defined.

(** X2 on the small instance: two epochs asked for, [log_epochs = 0]. *)
Lemma fit_log_epochs_zero_witness :
  exists (s' : PhysicsInformedNN R unit) (e : exn) (cs : list (call R)),
    fit demo_x demo_u demo_x demo_u 2 0 demo_pinn = (s', Raise e)
    /\ extends_calls demo_pinn s' 1 cs.
Proof.
  assert ({p : PhysicsInformedNN R unit * result unit
          | fit demo_x demo_u demo_x demo_u 2 0 demo_pinn = p})
    as [[s' r] Hrun] by (eexists; reflexivity).
  destruct (@fit_log_epochs_zero R _ unit _ demo_x demo_u demo_x demo_u 2
              demo_pinn s' r ltac:(lia) Hrun)
    as ((e & ->) & cs & Hext).
  exists s', e, cs. split; [exact Hrun | exact Hext].
Defined.

(** X3 on the small instance, with observed values for three points where the
    batch has two. *)
Lemma fit_loss_failure_witness :
  exists s' : PhysicsInformedNN R unit,
    fit demo_x (Mat [[0; 0]; [0; 0]; [0; 0]]) demo_x demo_u 5 50 demo_pinn
    = (s', Raise InvalidArgumentError)
    /\ U_model s' = U_model demo_pinn
    /\ calls s' = [grad_call demo_x (Mat [[0; 0]; [0; 0]; [0; 0]]) demo_x demo_u].
Proof.
  destruct (@fit_loss_failure R _ unit constant_tape demo_x
              (Mat [[0; 0]; [0; 0]; [0; 0]]) demo_x demo_u 5 50 demo_pinn
              InvalidArgumentError ltac:(lia) eq_refl)
    as (s' & Hrun & Hm & _ & _ & _ & Hc & _).
  exists s'. split; [exact Hrun|]. split; [exact Hm | exact Hc].
Defined.

(** X4 on the small instance: epoch 0 of a run reporting every 50 epochs. *)
Lemma report_pairs_old_loss_with_new_parameters_witness :
  exists (s' : PhysicsInformedNN R unit) (loss_value l1 l2 : R),
    epoch_body 50 0 demo_ready = (s', Ok tt)
    /\ __loss demo_ready demo_x demo_u demo_x demo_u = Ok loss_value
    /\ get_params_numpy s' = Ok (l1, l2)
    /\ logger s' = [log_train_epoch 0 loss_value l1 l2].
Proof.
  assert ({s' : PhysicsInformedNN R unit
          | epoch_body 50 0 demo_ready = (s', Ok tt)})
    as [s' Hrun] by (eexists; vm_compute; reflexivity).
  destruct (@report_pairs_old_loss_with_new_parameters R _ unit _ 50 0
              demo_ready s' Hrun eq_refl)
    as (x0 & u0 & x1 & u1 & loss_value & l1 & l2 & Hx0 & Hu0 & Hx1 & Hu1
        & Hloss & Hp & Hl).
  inversion Hx0; inversion Hu0; inversion Hx1; inversion Hu1; subst.
  exists s', loss_value, l1, l2.
  split; [exact Hrun|]. split; [exact Hloss|]. split; [exact Hp | exact Hl].
Defined.

(** X5 on the small instance: three epochs, a report every two. *)
Lemma fit_progress_reports_witness :
  exists (s' : PhysicsInformedNN R unit) (ev0 ev2 : log_event R),
    fit demo_x demo_u demo_x demo_u 3 2 demo_pinn = (s', Ok tt)
    /\ logger s' = [log_train_start; ev0; ev2; log_train_end 3]
    /\ reports 0 ev0 /\ reports 2 ev2.
Proof.
  assert ({s' : PhysicsInformedNN R unit
          | fit demo_x demo_u demo_x demo_u 3 2 demo_pinn = (s', Ok tt)})
    as [s' Hrun] by (eexists; vm_compute; reflexivity).
  destruct (@fit_progress_reports R _ unit _ demo_x demo_u demo_x demo_u 3 2
              demo_pinn s' Hrun)
    as (evs & Hl & Hf).
  change (report_epochs 3 2) with [0%Z; 2%Z] in Hf.
  inversion Hf as [|? ev0 ? evs' H0 Hf']; subst.
  inversion Hf' as [|? ev2 ? evs'' H2 Hf'']; subst.
  inversion Hf''; subst.
  exists s', ev0, ev2. split; [exact Hrun|].
  split; [exact Hl|]. split; [exact H0 | exact H2].
Defined.

(** X6 on the small instance: the fresh object and the one prepared by an
    earlier setup. *)
Lemma fit_overwrites_its_attributes_witness :
  fit demo_x demo_u demo_x demo_u 1 50 demo_pinn
  = fit demo_x demo_u demo_x demo_u 1 50
        (with_variables demo_ready (U_model demo_ready) (Vec [3]) (Vec [- 1])).
Proof.
  apply (@fit_overwrites_its_attributes R _ unit _); reflexivity.
Defined.

(** X7 on a constructed object. *)
Lemma constructor_data_kept_witness :
  exists self : PhysicsInformedNN R unit,
    __init__ demo_sample [1; 2]%nat tt [] (/ 2) (Vec [-1]) (Vec [1]) 2
             (Mat [[1; 0]; [1; 1]]) (Mat [[1; 1]; [2; 1]]) = Ok self
    /\ dt self = / 2 /\ IRK_alpha self = Mat [[1; 0]; [1; 1]].
Proof.
  eexists. split; [reflexivity|].
  edestruct (@constructor_data_kept R _ unit _ demo_sample [1; 2]%nat tt []
               (/ 2) (Vec [-1]) (Vec [1]) (Mat [[1; 0]; [1; 1]])
               (Mat [[1; 1]; [2; 1]]) 2)
    as (Hdt & _ & _ & Ha & _); [reflexivity | apply fitted_refl |].
  split; [exact Hdt | exact Ha].
Defined.

(** X8 on a constructed object and a batch of one point. *)
Lemma methods_before_fit_raise_witness :
  exists self : PhysicsInformedNN R unit,
    __init__ demo_sample [1; 2]%nat tt [] (/ 2) (Vec [-1]) (Vec [1]) 2
             (Mat [[1; 0]; [1; 1]]) (Mat [[1; 1]; [2; 1]]) = Ok self
    /\ get_params_numpy self = Raise AttributeError
    /\ predict self (Mat [[0]]) = Raise AttributeError.
Proof.
  eexists. split; [reflexivity|].
  edestruct (@methods_before_fit_raise R _ unit _ demo_sample [1; 2]%nat tt []
               (/ 2) (Vec [-1]) (Vec [1]) (Mat [[1; 0]; [1; 1]])
               (Mat [[1; 1]; [2; 1]]) 2)
    as (_ & Hp & _ & Hx); [reflexivity|].
  split; [exact Hp|].
  edestruct (Hx (Mat [[0]])) as (_ & _ & Hpred); [reflexivity | exact Hpred].
Defined.

(** X9 on the small instance, after a run that raised. *)
Lemma attributes_after_fit_witness :
  exists (s' : PhysicsInformedNN R unit) (l1 l2 : tensor R),
    fit demo_x demo_u demo_x demo_u 2 0 demo_pinn
    = (s', Raise ZeroDivisionError)
    /\ x_0 s' = Some demo_x
    /\ get_params s' = Ok (l1, tf_exp l2).
Proof.
  assert ({s' : PhysicsInformedNN R unit
          | fit demo_x demo_u demo_x demo_u 2 0 demo_pinn
            = (s', Raise ZeroDivisionError)})
    as [s' Hrun] by (eexists; vm_compute; reflexivity).
  destruct (@attributes_after_fit R _ unit _ demo_x demo_u demo_x demo_u 2 0
              demo_pinn s' _ Hrun)
    as (Hx0 & _ & _ & _ & l1 & l2 & _ & _ & Hp & _).
  exists s', l1, l2. split; [exact Hrun|]. split; [exact Hx0 | exact Hp].
Defined.

(** X13 on two-by-two tensors. *)
Lemma N_1_is_minus_N_0_witness :
  exists N0 N1 : list (list R),
    N_0 (Vec [2]) (Vec [3]) (Mat [[1; 2]; [3; 4]]) (Mat [[1; 0]; [0; 1]])
        (Mat [[5; 6]; [7; 8]]) = Ok (Mat N0)
    /\ N_1 (Vec [2]) (Vec [3]) (Mat [[1; 2]; [3; 4]]) (Mat [[1; 0]; [0; 1]])
           (Mat [[5; 6]; [7; 8]]) = Ok (Mat N1)
    /\ entry N1 0 1 = - entry N0 0 1.
Proof.
  destruct (@N_1_is_minus_N_0 2 2 2 3 [[1; 2]; [3; 4]] [[1; 0]; [0; 1]]
              [[5; 6]; [7; 8]])
    as (N0 & N1 & H0 & H1 & _ & _ & He); [check_shape | check_shape | check_shape |].
  exists N0, N1. split; [exact H0|]. split; [exact H1|].
  apply He; lia.
Defined.

End ConcreteExtras.

(** * Observations that broadcast *)

Section Broadcasting.
Context {A : Type} `{Scalar A}.
Context {O : Type} `{Backend A O}.

Local Notation "'PINN'" := (PhysicsInformedNN A O).

Lemma map_seq_nth {X Y : Type} (g : X -> Y) (l : list X) (d : X) :
  map g l = map (fun i => g (nth i l d)) (seq 0 (length l)).
Proof.
  rewrite <- (map_nth_seq_id l d) at 1. rewrite map_map. reflexivity.
Qed.

Lemma zip_with_seq_nth {X Y : Type} (h : X -> X -> Y) (a b : list X) (d : X) :
  length b = length a ->
  zip_with h a b = map (fun i => h (nth i a d) (nth i b d)) (seq 0 (length a)).
Proof.
  revert b. induction a as [|x a IH]; intros [|y b] Hlen; simpl in *;
    try discriminate; [reflexivity|].
  unfold zip_with. simpl. fold (zip_with h a b).
  rewrite (IH b) by lia. rewrite <- seq_shift, map_map. reflexivity.
Qed.

Lemma bidx_same (n i : nat) : bidx n n i = i.
Proof. unfold bidx. rewrite Nat.eqb_refl. reflexivity. Qed.

Lemma bdim_same (n : nat) : bdim n n = n.
Proof. unfold bdim. destruct (Nat.eqb n 1); reflexivity. Qed.

Lemma bdim_one (n : nat) : bdim n 1 = n.
Proof. unfold bdim. destruct (Nat.eqb_spec n 1); congruence. Qed.

Lemma bidx_one (n i : nat) : i < n -> bidx 1 n i = 0%nat.
Proof. unfold bidx. destruct (Nat.eqb_spec 1 n); lia. Qed.

(** The indices that broadcasting pairs are indices of the operands. *)
Lemma bidx_lt (n n' i : nat) :
  compatible n n' -> i < bdim n n' ->
  bidx n (bdim n n') i < n /\ bidx n' (bdim n n') i < n'.
Proof.
  unfold compatible, bdim, bidx. intros Hc Hi.
  destruct (Nat.eqb_spec n 1); [subst n|].
  - rewrite Nat.eqb_refl. destruct (Nat.eqb_spec 1 n'); lia.
  - rewrite Nat.eqb_refl. destruct (Nat.eqb_spec n' n); lia.
Qed.

(** One dimension of two operands of compatible sizes. *)
Lemma bzip_broadcast {X Y : Type} (g : X -> X -> result Y) (h : X -> X -> Y)
    (a b : list X) (d : X) :
  compatible (length a) (length b) ->
  (forall i, i < bdim (length a) (length b) ->
     g (nth (bidx (length a) (bdim (length a) (length b)) i) a d)
       (nth (bidx (length b) (bdim (length a) (length b)) i) b d)
     = Ok (h (nth (bidx (length a) (bdim (length a) (length b)) i) a d)
             (nth (bidx (length b) (bdim (length a) (length b)) i) b d))) ->
  bzip g a b
  = Ok (map (fun i =>
               h (nth (bidx (length a) (bdim (length a) (length b)) i) a d)
                 (nth (bidx (length b) (bdim (length a) (length b)) i) b d))
            (seq 0 (bdim (length a) (length b)))).
Proof.
  intros Hc Hg.
  destruct (Nat.eqb_spec (length a) 1) as [Hone|Hmore].
  - destruct a as [|x [|x' a]]; try discriminate.
    assert (bdim (length [x]) (length b) = length b) as HN by reflexivity.
    rewrite HN in *. clear Hc.
    assert (forall i, i < length b ->
              nth (bidx (length [x]) (length b) i) [x] d = x) as Hx.
    { intros i Hi. simpl length. unfold bidx.
      destruct (Nat.eqb_spec 1 (length b)); [|reflexivity].
      replace i with 0%nat by lia. reflexivity. }
    assert (bzip g [x] b = mapM (g x) b) as -> by reflexivity.
    rewrite (mapM_ext_in (g x) (fun y => Ok (h x y))).
    + rewrite mapM_pure, (map_seq_nth (h x) b d). f_equal.
      apply map_ext_in. intros i Hi. apply in_seq in Hi.
      rewrite Hx by lia. rewrite bidx_same. reflexivity.
    + intros y Hin. destruct (In_nth _ _ d Hin) as (i & Hi & <-).
      pose proof (Hg i Hi) as Hgi.
      rewrite Hx, bidx_same in Hgi by exact Hi. exact Hgi.
  - assert (bdim (length a) (length b) = length a) as HN.
    { unfold bdim. destruct (Nat.eqb_spec (length a) 1); congruence. }
    rewrite HN in *.
    assert (forall i, nth (bidx (length a) (length a) i) a d = nth i a d) as Ha
      by (intros i; rewrite bidx_same; reflexivity).
    destruct (Nat.eqb_spec (length b) (length a)) as [Heq|Hne].
    + rewrite (bzip_same g h a b).
      * rewrite (zip_with_seq_nth h a b d Heq). f_equal.
        apply map_ext. intros i. rewrite Ha, Heq, bidx_same. reflexivity.
      * symmetry; exact Heq.
      * intros x y Hin.
        destruct (In_nth _ _ (d, d) Hin) as (i & Hi & Hnth).
        rewrite combine_nth in Hnth by (symmetry; exact Heq).
        rewrite length_combine in Hi.
        inversion Hnth; subst.
        pose proof (Hg i ltac:(lia)) as Hgi.
        rewrite Ha, Heq, bidx_same in Hgi. exact Hgi.
    + assert (length b = 1%nat) as Hb by (unfold compatible in Hc; lia).
      destruct b as [|y [|y' b]]; try discriminate.
      assert (forall i, nth (bidx (length [y]) (length a) i) [y] d = y) as Hy.
      { intros i. unfold bidx.
        destruct (Nat.eqb_spec (length [y]) (length a)); [contradiction|].
        reflexivity. }
      assert (bzip g a [y] = mapM (fun x => g x y) a) as ->.
      { unfold bzip. destruct a as [|x [|x' a]]; simpl in *;
          [reflexivity | contradiction | reflexivity]. }
      rewrite (mapM_ext_in (fun x => g x y) (fun x => Ok (h x y))).
      * rewrite mapM_pure, (map_seq_nth (fun x => h x y) a d). f_equal.
        apply map_ext. intros i. rewrite Ha, Hy. reflexivity.
      * intros x Hin. destruct (In_nth _ _ d Hin) as (i & Hi & <-).
        pose proof (Hg i Hi) as Hgi. rewrite Ha, Hy in Hgi. exact Hgi.
Qed.

Lemma brow_broadcast (f : A -> A -> A) (r s : list A) (d : A) :
  compatible (length r) (length s) ->
  brow f r s
  = Ok (map (fun j =>
               f (nth (bidx (length r) (bdim (length r) (length s)) j) r d)
                 (nth (bidx (length s) (bdim (length r) (length s)) j) s d))
            (seq 0 (bdim (length r) (length s)))).
Proof.
  intros Hc. unfold brow.
  apply (bzip_broadcast (fun x y => Ok (f x y)) f r s d Hc).
  intros i _. reflexivity.
Qed.

(** An elementwise operator on a prediction and observed values of compatible
    shapes: the entries of the result, by the entries of the operands. *)
Lemma broadcast_entries (f : A -> A -> A) (n k n' k' : nat) (a : list (list A))
    (t : tensor A) :
  has_shape n k a -> has_shape n' k' (rows t) ->
  compatible n n' -> compatible k k' ->
  broadcast f (Mat a) t
  = Ok (Mat (map (fun i =>
                    map (fun j =>
                           f (entry a (bidx n (bdim n n') i) (bidx k (bdim k k') j))
                             (entry (rows t) (bidx n' (bdim n n') i)
                                    (bidx k' (bdim k k') j)))
                        (seq 0 (bdim k k')))
                 (seq 0 (bdim n n')))).
Proof.
  intros Ha Hb Hn Hk.
  assert (broadcast f (Mat a) t
          = (m <- bzip (brow f) (rows (Mat a)) (rows t) ;; Ok (Mat m))) as ->
    by (destruct t; reflexivity).
  simpl rows. set (b := rows t) in *.
  assert (length a = n) as Hlena by apply Ha.
  assert (length b = n') as Hlenb by apply Hb.
  rewrite (bzip_broadcast (brow f)
             (fun r s =>
                map (fun j =>
                       f (nth (bidx (length r) (bdim (length r) (length s)) j)
                              r (flit 0))
                         (nth (bidx (length s) (bdim (length r) (length s)) j)
                              s (flit 0)))
                    (seq 0 (bdim (length r) (length s))))
             a b []).
  - cbn [bind]. rewrite Hlena, Hlenb. do 2 f_equal.
    apply map_ext_in. intros i Hi. apply in_seq in Hi.
    destruct (@bidx_lt n n' i Hn ltac:(lia)) as [Hia Hib].
    rewrite (has_shape_nth Ha Hia), (has_shape_nth Hb Hib). reflexivity.
  - rewrite Hlena, Hlenb. exact Hn.
  - rewrite Hlena, Hlenb. intros i Hi.
    destruct (@bidx_lt n n' i Hn Hi) as [Hia Hib].
    apply brow_broadcast.
    rewrite (has_shape_nth Ha Hia), (has_shape_nth Hb Hib). exact Hk.
Qed.

(** [tf.reduce_sum(tf.square(pred - obs))] for observed values of a shape
    compatible with the prediction's. *)
Lemma squared_error_value (n k n' k' : nat) (pred : list (list A))
    (obs : tensor A) :
  has_shape n k pred -> has_shape n' k' (rows obs) ->
  compatible n n' -> compatible k k' ->
  exists d, tf_sub (Mat pred) obs = Ok d
            /\ tf_reduce_sum (tf_square d)
               = spec_squared_error n k n' k' pred (rows obs).
Proof.
  intros Hp Ho Hn Hk. eexists.
  split; [apply (broadcast_entries fsub obs Hp Ho Hn Hk)|].
  unfold tf_reduce_sum, tf_square, spec_squared_error. simpl.
  rewrite map_map, flat_map_concat_map. do 2 f_equal.
  apply map_ext. intros i. rewrite map_map. reflexivity.
Qed.

(** Observed values of the prediction's shape: each entry meets the observed
    value at its own place. *)
Lemma squared_error_same (n k : nat) (pred obs : list (list A)) :
  spec_squared_error n k n k pred obs
  = fsum_list
      (flat_map
         (fun i => map (fun j => let d := fsub (entry pred i j) (entry obs i j)
                                 in fmul d d)
                       (seq 0 k))
         (seq 0 n)).
Proof.
  unfold spec_squared_error. rewrite !bdim_same. f_equal.
  apply flat_map_ext. intros i. apply map_ext. intros j.
  rewrite !bidx_same. reflexivity.
Qed.

(** A column of observed values, one per row: every entry of row [i] meets
    the observed value of row [i]. *)
Lemma squared_error_column (n k : nat) (pred obs : list (list A)) :
  spec_squared_error n k n 1 pred obs
  = fsum_list
      (flat_map
         (fun i => map (fun j => let d := fsub (entry pred i j) (entry obs i 0)
                                 in fmul d d)
                       (seq 0 k))
         (seq 0 n)).
Proof.
  unfold spec_squared_error. rewrite bdim_same, bdim_one. f_equal.
  apply flat_map_ext. intros i. apply map_ext_in. intros j Hj.
  apply in_seq in Hj. rewrite !bidx_same, bidx_one by lia. reflexivity.
Qed.

Lemma loss_value_broadcast (self : PINN) (x0 x1 u0 u1 : tensor A)
    (n0 k0 m0 w0 n1 k1 m1 w1 : nat) (P0 P1 : list (list A)) :
  U_0_model self x0 = Ok (Mat P0) -> U_1_model self x1 = Ok (Mat P1) ->
  has_shape n0 k0 P0 -> has_shape m0 w0 (rows u0) ->
  compatible n0 m0 -> compatible k0 w0 ->
  has_shape n1 k1 P1 -> has_shape m1 w1 (rows u1) ->
  compatible n1 m1 -> compatible k1 w1 ->
  __loss self x0 u0 x1 u1
  = Ok (fadd (spec_squared_error n0 k0 m0 w0 P0 (rows u0))
             (spec_squared_error n1 k1 m1 w1 P1 (rows u1))).
Proof.
  intros Hpred0 Hpred1 HP0 Hu0 Hn0 Hk0 HP1 Hu1 Hn1 Hk1.
  destruct (squared_error_value u0 HP0 Hu0 Hn0 Hk0) as (d0 & Hd0 & Hs0).
  destruct (squared_error_value u1 HP1 Hu1 Hn1 Hk1) as (d1 & Hd1 & Hs1).
  unfold __loss. rewrite Hpred0, Hpred1. cbn [bind].
  rewrite Hd0. cbn [bind]. rewrite Hd1. cbn [bind].
  rewrite Hs0, Hs1. reflexivity.
Qed.

End Broadcasting.

(** * The training loop, epoch by epoch *)

Section Refinement.
Context {A : Type} `{Scalar A}.
Context {O : Type} `{Backend A O}.

Local Notation "'PINN'" := (PhysicsInformedNN A O).

Ltac same_state_tac :=
  unfold same_state, same_data in *; simpl in *; intuition congruence.

Lemma same_state_refl (s : PINN) : same_state s s.
Proof. same_state_tac. Qed.

Lemma same_state_sym (s t : PINN) : same_state s t -> same_state t s.
Proof. same_state_tac. Qed.

Lemma same_state_trans (s1 s2 s3 : PINN) :
  same_state s1 s2 -> same_state s2 s3 -> same_state s1 s3.
Proof. same_state_tac. Qed.

Lemma same_state_record_call (c : call A) (s : PINN) :
  same_state s (record_call c s).
Proof. same_state_tac. Qed.

Lemma same_state_log (ev : log_event A) (s : PINN) : same_state s (log ev s).
Proof. same_state_tac. Qed.

Lemma same_state_set_optimizer (o : O) (s t : PINN) :
  same_state s t -> same_state (set_optimizer o s) (set_optimizer o t).
Proof. same_state_tac. Qed.

(** The loss reads neither the log nor the call history. *)
Lemma same_state_loss (s t : PINN) (x0 u0 x1 u1 : tensor A) :
  same_state s t -> __loss s x0 u0 x1 u1 = __loss t x0 u0 x1 u1.
Proof.
  destruct s, t. unfold same_state, same_data. simpl.
  intros Hst. decompose [and] Hst. subst. reflexivity.
Qed.

Lemma same_state_wrap (s t : PINN) :
  same_state s t -> __wrap_training_variables s = __wrap_training_variables t.
Proof.
  destruct s, t. unfold same_state, same_data. simpl.
  intros Hst. decompose [and] Hst. subst. reflexivity.
Qed.

Lemma same_state_assign (s t s2 : PINN) (vals : list (tensor A)) :
  same_state s t -> assign_variables s vals = Ok s2 ->
  exists t2, assign_variables t vals = Ok t2 /\ same_state s2 t2.
Proof.
  intros Hst. unfold assign_variables.
  assert (U_model t = U_model s) as -> by apply Hst.
  destruct (assign_weights (U_model s) vals) as [[model rest]|e];
    [|discriminate].
  cbn [bind]. destruct rest as [|l1 [|l2 [|? ?]]]; try discriminate.
  intros Hok. inversion Hok; subst. eexists. split; [reflexivity|].
  same_state_tac.
Qed.

(** Nor does the gradient: the computation handed to the tape is the same
    function of the variables. *)
Lemma same_state_grad (s t : PINN) (x0 u0 x1 u1 : tensor A) :
  same_state s t -> __grad s x0 u0 x1 u1 = __grad t x0 u0 x1 u1.
Proof.
  intros Hst. unfold __grad.
  rewrite (same_state_loss x0 u0 x1 u1 Hst), (same_state_wrap Hst).
  assert ((fun vals => self' <- assign_variables s vals ;;
                       __loss self' x0 u0 x1 u1)
          = (fun vals => self' <- assign_variables t vals ;;
                         __loss self' x0 u0 x1 u1)) as ->; [|reflexivity].
  apply functional_extensionality. intros vals.
  destruct (assign_variables s vals) as [s2|e] eqn:Hs.
  - destruct (same_state_assign vals Hst Hs) as (t2 & -> & Hst2).
    cbn [bind]. apply same_state_loss, Hst2.
  - assert (assign_variables t vals = Raise e) as ->; [|reflexivity].
    unfold assign_variables in *.
    assert (U_model t = U_model s) as -> by apply Hst.
    destruct (assign_weights (U_model s) vals) as [[model rest]|e'];
      [|exact Hs].
    cbn [bind] in *. destruct rest as [|l1 [|l2 [|? ?]]];
      first [exact Hs | discriminate].
Qed.

(** The variables of an object after an assignment are the values assigned. *)
Lemma assign_weights_values (model : Sequential A) :
  forall (vals rest : list (tensor A)) (model' : Sequential A),
    assign_weights model vals = Ok (model', rest) ->
    vals = trainable_variables model' ++ rest.
Proof.
  induction model as [|l model IH]; intros vals rest model' Hok; simpl in Hok.
  - inversion Hok; subst. reflexivity.
  - destruct vals as [|[v|kernel] [|[bias|m] vals]]; try discriminate.
    destruct (assign_weights model vals) as [[r rest']|e] eqn:Hrec;
      [|discriminate].
    cbn [bind] in Hok. inversion Hok; subst.
    rewrite (IH vals rest r Hrec). reflexivity.
Qed.

Lemma assign_variables_values (s s' : PINN) (vals : list (tensor A)) :
  assign_variables s vals = Ok s' -> __wrap_training_variables s' = Ok vals.
Proof.
  unfold assign_variables.
  destruct (assign_weights (U_model s) vals) as [[model rest]|e] eqn:Hw;
    [|discriminate].
  cbn [bind]. destruct rest as [|l1 [|l2 [|? ?]]]; try discriminate.
  intros Hok. inversion Hok; subst.
  unfold __wrap_training_variables. simpl.
  rewrite (assign_weights_values _ _ Hw). reflexivity.
Qed.

(** A pass through the loop body that returns is one epoch of the
    specification, on the variables and the optimizer state it found. *)
Lemma epoch_body_refines (log_epochs epoch : Z) (s s' t : PINN) :
  epoch_body log_epochs epoch s = (s', Ok tt) -> same_state t s ->
  exists t' cs,
    spec_epoch t = Ok (t', cs) /\ same_state t' s'
    /\ calls s' = calls s ++ cs.
Proof.
  intros Hrun Hts.
  destruct (epoch_body_ok_inv _ _ _ Hrun)
    as (x0 & u0 & x1 & u1 & loss_value & grads & var & o & vals & s2
        & Hx0 & Hu0 & Hx1 & Hu1 & Hgrad & Hvar & Happly & Hassign & _ & Hend).
  assert (same_state t (record_call (grad_call x0 u0 x1 u1) s)) as Hts1
    by (eapply same_state_trans; [exact Hts | apply same_state_record_call]).
  rewrite <- (same_state_grad x0 u0 x1 u1 Hts1) in Hgrad.
  rewrite <- (same_state_wrap Hts) in Hvar.
  assert (optimizer s = optimizer t) as Hopt by apply Hts.
  rewrite Hopt in Happly.
  destruct (same_state_assign (t := set_optimizer o t) _
              ltac:(apply same_state_sym, same_state_set_optimizer;
                    eapply same_state_trans; [exact Hts1|];
                    apply same_state_record_call) Hassign)
    as (t2 & Ht2 & Hst2).
  exists t2, [grad_call x0 u0 x1 u1; apply_call grads var].
  split.
  - unfold spec_epoch.
    assert (x_0 t = Some x0 /\ u_0 t = Some u0 /\ x_1 t = Some x1
            /\ u_1 t = Some u1) as (-> & -> & -> & ->)
      by (unfold same_state, same_data in Hts; intuition congruence).
    cbn [getattr bind]. rewrite Hgrad. cbn [bind]. rewrite Hvar. cbn [bind].
    rewrite Happly. cbn [bind]. rewrite Ht2. reflexivity.
  - destruct (assign_variables_data _ _ Hassign) as (_ & Hc & _).
    assert (calls s2 = calls s ++ [grad_call x0 u0 x1 u1; apply_call grads var])
      as Hcalls by (rewrite Hc; simpl; rewrite <- app_assoc; reflexivity).
    destruct Hend as [(_ & l1 & l2 & _ & ->) | (_ & ->)].
    + split; [|exact Hcalls].
      eapply same_state_trans; [apply same_state_sym, Hst2|].
      apply same_state_log.
    + split; [apply same_state_sym, Hst2 | exact Hcalls].
Qed.

Lemma training_loop_refines (log_epochs : Z) (l : list Z) :
  forall s s' t : PINN,
    for_each l (epoch_body log_epochs) s = (s', Ok tt) -> same_state t s ->
    exists t' cs,
      spec_training (length l) t = Ok (t', cs) /\ same_state t' s'
      /\ calls s' = calls s ++ cs.
Proof.
  induction l as [|epoch l IH]; intros s s' t Hrun Hts.
  - simpl in Hrun. unfold ret in Hrun. inversion Hrun; subst.
    exists t, []. split; [reflexivity|]. split; [exact Hts|].
    rewrite app_nil_r. reflexivity.
  - simpl in Hrun. apply bind_action_inv in Hrun.
    destruct Hrun as [([] & s1 & Hbody & Hrun) | (e & _ & Hr)]; [|discriminate].
    destruct (epoch_body_refines _ _ Hbody Hts) as (t1 & cs1 & Ht1 & Hts1 & Hc1).
    destruct (IH s1 s' t1 Hrun Hts1) as (t2 & cs2 & Ht2 & Hts2 & Hc2).
    exists t2, (cs1 ++ cs2). split.
    + simpl. rewrite Ht1. cbn [bind]. rewrite Ht2. reflexivity.
    + split; [exact Hts2|]. rewrite Hc2, Hc1, app_assoc. reflexivity.
Qed.

(** A call of [fit] that returns has taken the variables and the optimizer
    through [epochs] epochs of the specification, starting from the attributes
    it has set up. *)
Lemma fit_refines (x0 u0 x1 u1 : tensor A) (epochs log_epochs : Z)
    (s s' : PINN) :
  fit x0 u0 x1 u1 epochs log_epochs s = (s', Ok tt) ->
  exists t cs,
    spec_training (Z.to_nat epochs) (create_tensors x0 u0 x1 u1 s) = Ok (t, cs)
    /\ same_state t s' /\ calls s' = calls s ++ cs.
Proof.
  unfold fit. intros Hrun.
  apply bind_action_inv in Hrun.
  destruct Hrun as [(u & s1 & Hupd & Hrun) | (e & _ & Hr)]; [|discriminate].
  apply update_inv in Hupd. destruct Hupd as [-> _].
  apply bind_action_inv in Hrun.
  destruct Hrun as [(u' & s1 & Hupd & Hrun) | (e & _ & Hr)]; [|discriminate].
  apply update_inv in Hupd. destruct Hupd as [-> _].
  apply bind_action_inv in Hrun.
  destruct Hrun as [([] & s3 & Hloop & Hrun) | (e & _ & Hr)]; [|discriminate].
  apply update_inv in Hrun. destruct Hrun as [-> _].
  destruct (@training_loop_refines log_epochs (range epochs) _ s3
              (create_tensors x0 u0 x1 u1 s) Hloop)
    as (t & cs & Ht & Hts & Hc).
  { unfold same_state, same_data. simpl. intuition congruence. }
  rewrite range_length in Ht. exists t, cs.
  split; [exact Ht|]. split.
  - eapply same_state_trans; [exact Hts | apply same_state_log].
  - exact Hc.
Qed.

End Refinement.

(** * The gradient of the loss *)

Section Gradient.
Context {O : Type} `{Backend R O}.

Lemma list_set_middle {X : Type} (a b : list X) (x y : X) :
  list_set (a ++ x :: b) (length a) y = a ++ y :: b.
Proof.
  unfold list_set.
  rewrite firstn_app, skipn_app, firstn_all, skipn_all, Nat.sub_diag.
  simpl. rewrite app_nil_r. reflexivity.
Qed.

(** The loss as a function of the variables has the loss value at their
    current values; the entry of the gradient at the place of [lambda_1] is
    the derivative of the loss in [lambda_1], and the next one in
    [lambda_2]. *)
Lemma grad_is_gradient (self : PhysicsInformedNN R O)
    (x0 u0 x1 u1 l1 l2 : tensor R) (loss_value : R) (grads : list (tensor R)) :
  lawful_tape _ ->
  lambda_1 self = Some l1 -> lambda_2 self = Some l2 ->
  __grad self x0 u0 x1 u1 = Ok (loss_value, grads) ->
  let var := trainable_variables (U_model self) ++ [l1; l2] in
  let loss_of := fun vals => self' <- assign_variables self vals ;;
                             __loss self' x0 u0 x1 u1 in
  __loss self x0 u0 x1 u1 = Ok loss_value
  /\ loss_of var = Ok loss_value
  /\ is_gradient loss_of var grads
  /\ (forall a : R,
         l1 = Vec [a] ->
         exists F : R -> R,
           (forall v : R,
               __loss (with_variables self (U_model self) (Vec [v]) l2)
                      x0 u0 x1 u1 = Ok (F v))
           /\ derivable_pt_lim F a
                (tensor_get (nth (2 * length (U_model self)) grads (Vec [])) 0 0))
  /\ (forall b : R,
         l2 = Vec [b] ->
         exists F : R -> R,
           (forall v : R,
               __loss (with_variables self (U_model self) l1 (Vec [v]))
                      x0 u0 x1 u1 = Ok (F v))
           /\ derivable_pt_lim F b
                (tensor_get (nth (2 * length (U_model self) + 1) grads (Vec []))
                            0 0)).
Proof.
  intros Hlaw Hl1 Hl2 Hgrad var loss_of.
  pose proof (grad_loss_value _ _ _ _ _ Hgrad) as Hloss.
  unfold __grad in Hgrad. rewrite Hloss in Hgrad. cbn [bind] in Hgrad.
  unfold __wrap_training_variables in Hgrad. rewrite Hl1, Hl2 in Hgrad.
  cbn [getattr bind] in Hgrad. fold var loss_of in Hgrad.
  destruct (tape_gradient_vars loss_of var) as [g|e] eqn:Htape;
    [|discriminate].
  cbn [bind] in Hgrad. inversion Hgrad; subst g. clear Hgrad.
  apply Hlaw in Htape. destruct Htape as [Hlen Hpos].
  set (tv := trainable_variables (U_model self)) in *.
  assert (length tv = (2 * length (U_model self))%nat) as Htv
    by apply trainable_variables_length.
  split; [exact Hloss|]. split.
  { unfold loss_of, var, tv. rewrite (assign_variables_own self Hl1 Hl2).
    cbn [bind]. exact Hloss. }
  split; [split; assumption|]. split.
  - intros a ->.
    destruct (Hpos (length tv) 0%nat 0%nat) as (F & HF & HdF).
    { unfold position, var. rewrite nth_middle, length_app. simpl. lia. }
    exists F. split.
    + intros v. rewrite <- (HF v). unfold var. rewrite nth_middle.
      rewrite list_set_middle. unfold loss_of, assign_variables, tv.
      rewrite assign_weights_own. reflexivity.
    + unfold var in HdF. rewrite nth_middle, Htv in HdF. exact HdF.
  - intros b ->.
    assert (var = (tv ++ [l1]) ++ [Vec [b]]) as Hvar
      by (unfold var; rewrite <- app_assoc; reflexivity).
    assert (length (tv ++ [l1]) = (2 * length (U_model self) + 1)%nat) as Hlen1
      by (rewrite length_app; simpl; lia).
    destruct (Hpos (length (tv ++ [l1])) 0%nat 0%nat) as (F & HF & HdF).
    { unfold position. rewrite Hvar, nth_middle, !length_app. simpl. lia. }
    exists F. split.
    + intros v. rewrite <- (HF v). rewrite Hvar, nth_middle.
      rewrite list_set_middle, <- app_assoc.
      unfold loss_of, assign_variables, tv.
      simpl app. rewrite assign_weights_own. reflexivity.
    + rewrite Hvar, nth_middle, Hlen1 in HdF. exact HdF.
Qed.

End Gradient.

(** The tape [exact_tape] keeps the law. *)
Lemma exact_tape_lawful : lawful_tape exact_tape.
Proof.
  intros f vars grads. cbn [tape_gradient_vars exact_tape].
  unfold exact_gradient.
  destruct (excluded_middle_informative (exists g, is_gradient f vars g))
    as [Hex|Hno]; [|discriminate].
  intros Hok. inversion Hok; subst.
  exact (proj2_sig (constructive_indefinite_description _ Hex)).
Qed.

(** * The loss, its gradient and the epochs of a run *)

(** C3. For all observed values whose shape goes with the prediction's by
    broadcasting (the prediction's own shape, or a column of one value per
    point, among others), the loss is the sum of the squared elementwise
    differences between the slice-0 prediction and the slice-0 observed values
    plus the same sum for slice 1: for observed values of the prediction's
    shape entry (i, j) of the prediction is compared with entry (i, j), for a
    column with the observed value of row i. The gradient operation returns
    this value together with what the tape returns for the loss, taken as a
    function of the list of all network variables followed by [lambda_1] and
    [lambda_2]; that function has the loss value at the variables' current
    values. Over the reals and on a tape that returns gradients, the second
    component is the gradient of the loss with respect to that list: every
    entry of it is the derivative of the loss in the entry of the variable at
    the same place, and its last two items are the derivatives of the loss in
    [lambda_1] and in [lambda_2]. *)
Theorem grad_correct :
  (forall (A : Type) (SA : Scalar A) (O : Type) (B : Backend A O)
          (self : PhysicsInformedNN A O) (x0 u0 x1 u1 l1 l2 : tensor A)
          (n0 k0 m0 w0 n1 k1 m1 w1 : nat) (P0 P1 : list (list A)),
      U_0_model self x0 = Ok (Mat P0) -> U_1_model self x1 = Ok (Mat P1) ->
      has_shape n0 k0 P0 -> has_shape m0 w0 (rows u0) ->
      compatible n0 m0 -> compatible k0 w0 ->
      has_shape n1 k1 P1 -> has_shape m1 w1 (rows u1) ->
      compatible n1 m1 -> compatible k1 w1 ->
      lambda_1 self = Some l1 -> lambda_2 self = Some l2 ->
      let loss_value := fadd (spec_squared_error n0 k0 m0 w0 P0 (rows u0))
                             (spec_squared_error n1 k1 m1 w1 P1 (rows u1)) in
      let var := trainable_variables (U_model self) ++ [l1; l2] in
      let loss_of := fun vals =>
                       self' <- assign_variables self vals ;;
                       __loss self' x0 u0 x1 u1 in
      __loss self x0 u0 x1 u1 = Ok loss_value
      /\ loss_of var = Ok loss_value
      /\ __grad self x0 u0 x1 u1
         = (grads <- tape_gradient_vars loss_of var ;; Ok (loss_value, grads)))
  /\ (forall (A : Type) (SA : Scalar A) (n k : nat) (pred obs : list (list A)),
         spec_squared_error n k n k pred obs
         = fsum_list
             (flat_map
                (fun i =>
                   map (fun j => let d := fsub (entry pred i j) (entry obs i j)
                                 in fmul d d)
                       (seq 0 k))
                (seq 0 n))
         /\ spec_squared_error n k n 1 pred obs
            = fsum_list
                (flat_map
                   (fun i =>
                      map (fun j => let d := fsub (entry pred i j) (entry obs i 0)
                                    in fmul d d)
                          (seq 0 k))
                   (seq 0 n)))
  /\ (forall (O : Type) (B : Backend R O) (self : PhysicsInformedNN R O)
             (x0 u0 x1 u1 l1 l2 : tensor R) (loss_value : R)
             (grads : list (tensor R)),
         lawful_tape B ->
         lambda_1 self = Some l1 -> lambda_2 self = Some l2 ->
         __grad self x0 u0 x1 u1 = Ok (loss_value, grads) ->
         let var := trainable_variables (U_model self) ++ [l1; l2] in
         let loss_of := fun vals =>
                          self' <- assign_variables self vals ;;
                          __loss self' x0 u0 x1 u1 in
         __loss self x0 u0 x1 u1 = Ok loss_value
         /\ loss_of var = Ok loss_value
         /\ is_gradient loss_of var grads
         /\ (forall a : R,
                l1 = Vec [a] ->
                exists F : R -> R,
                  (forall v : R,
                      __loss (with_variables self (U_model self) (Vec [v]) l2)
                             x0 u0 x1 u1 = Ok (F v))
                  /\ derivable_pt_lim F a
                       (tensor_get
                          (nth (2 * length (U_model self)) grads (Vec [])) 0 0))
         /\ (forall b : R,
                l2 = Vec [b] ->
                exists F : R -> R,
                  (forall v : R,
                      __loss (with_variables self (U_model self) l1 (Vec [v]))
                             x0 u0 x1 u1 = Ok (F v))
                  /\ derivable_pt_lim F b
                       (tensor_get
                          (nth (2 * length (U_model self) + 1) grads (Vec []))
                          0 0))).
Proof.
  split; [|split].
  - intros A SA O B self x0 u0 x1 u1 l1 l2 n0 k0 m0 w0 n1 k1 m1 w1 P0 P1
           Hp0 Hp1 HP0 Hu0 Hn0 Hk0 HP1 Hu1 Hn1 Hk1 Hl1 Hl2 loss_value var loss_of.
    pose proof (loss_value_broadcast self x0 x1 u0 u1 Hp0 Hp1
                  HP0 Hu0 Hn0 Hk0 HP1 Hu1 Hn1 Hk1) as Hloss.
    split; [exact Hloss|]. split.
    + unfold loss_of, var. rewrite (assign_variables_own self Hl1 Hl2).
      cbn [bind]. exact Hloss.
    + unfold __grad. rewrite Hloss. cbn [bind].
      unfold __wrap_training_variables. rewrite Hl1, Hl2. cbn [getattr bind].
      reflexivity.
  - intros A SA n k pred obs.
    split; [apply squared_error_same | apply squared_error_column].
  - intros O B self x0 u0 x1 u1 l1 l2 loss_value grads Hlaw Hl1 Hl2 Hgrad.
    exact (grad_is_gradient self x0 u0 x1 u1 Hlaw Hl1 Hl2 Hgrad).
Qed.

(** C4. Every call of [fit] with epoch count [E] runs at most [E] epochs, and
    a call that returns has run exactly [E]: the object it leaves holds the
    variables and the optimizer state reached by [E] epochs in a row, each of
    them one gradient computation over the whole of [x_0], [u_0], [x_1], [u_1]
    at the variables the epoch before has left, followed by one call of the
    optimizer on that gradient paired with all network variables, [lambda_1]
    and [lambda_2], whose new values and new state the object takes; its
    backend calls are those of these epochs, and nothing else. The only way
    out of the loop before the end of [range(E)] is an exception. *)
Theorem fit_runs_E_epochs (A : Type) (SA : Scalar A) (O : Type)
    (B : Backend A O) (x0 u0 x1 u1 : tensor A) (E log_epochs : Z)
    (s s' : PhysicsInformedNN A O) (r : result unit) :
  (0 <= E)%Z ->
  fit x0 u0 x1 u1 E log_epochs s = (s', r) ->
  exists cs,
    calls s' = calls s ++ cs
    /\ (Z.of_nat (length (filter is_apply_call cs))
        <= Z.of_nat (length (filter is_grad_call cs)) <= E)%Z
    /\ (r = Ok tt ->
        (exists t,
            spec_training (Z.to_nat E) (create_tensors x0 u0 x1 u1 s)
            = Ok (t, cs)
            /\ same_state t s')
        /\ training_calls x0 u0 x1 u1 (Z.to_nat E) cs
        /\ Z.of_nat (length (filter is_grad_call cs)) = E
        /\ Z.of_nat (length (filter is_apply_call cs)) = E
        /\ Z.of_nat (length cs) = (2 * E)%Z
        /\ Forall (fun c =>
                     match c with
                     | grad_call a b c d => a = x0 /\ b = u0 /\ c = x1 /\ d = u1
                     | apply_call _ vars =>
                         exists (model : Sequential A) (l1 l2 : tensor A),
                           vars = trainable_variables model ++ [l1; l2]
                     end) cs).
Proof.
  intros HE Hrun.
  destruct (fit_data _ _ _ _ _ _ _ Hrun)
    as (_ & _ & _ & _ & _ & _ & _ & _ & cs & (Hcs & Ha & Hg) & Hc).
  exists cs. split; [exact Hcs|]. split; [lia|].
  intros Hr. pose proof (Hc Hr) as Ht.
  destruct (training_calls_count _ _ _ _ _ _ Ht) as (Hg' & Ha' & Hl).
  split.
  { subst r.
    destruct (fit_refines _ _ _ _ _ _ _ Hrun) as (t & cs' & Hspec & Hts & Hcs').
    assert (cs' = cs) as ->
      by (rewrite Hcs in Hcs'; apply app_inv_head in Hcs'; symmetry; exact Hcs').
    exists t. split; [exact Hspec | exact Hts]. }
  split; [exact Ht|].
  split; [lia|]. split; [lia|]. split; [lia|].
  apply (training_calls_all _ _ _ _ _ _ Ht).
Qed.

(** * The loss, its gradient and the epochs of a run, on concrete data *)

Section ConcreteGradient.
Local Open Scope R_scope.

Ltac shape_check := split; [reflexivity | repeat constructor].

(** The expressions the loss is made of have a derivative at every point. *)
Lemma smooth_const (c x : R) : smooth (fun _ => c) x.
Proof. exists 0. apply derivable_pt_lim_const. Qed.

Lemma smooth_id (x : R) : smooth (fun v => v) x.
Proof. exists 1. apply derivable_pt_lim_id. Qed.

Lemma smooth_plus (f g : R -> R) (x : R) :
  smooth f x -> smooth g x -> smooth (fun v => f v + g v) x.
Proof.
  intros [l1 H1] [l2 H2]. exists (l1 + l2).
  apply (derivable_pt_lim_plus f g x l1 l2 H1 H2).
Qed.

Lemma smooth_minus (f g : R -> R) (x : R) :
  smooth f x -> smooth g x -> smooth (fun v => f v - g v) x.
Proof.
  intros [l1 H1] [l2 H2]. exists (l1 - l2).
  apply (derivable_pt_lim_minus f g x l1 l2 H1 H2).
Qed.

Lemma smooth_mult (f g : R -> R) (x : R) :
  smooth f x -> smooth g x -> smooth (fun v => f v * g v) x.
Proof.
  intros [l1 H1] [l2 H2]. exists (l1 * g x + f x * l2).
  apply (derivable_pt_lim_mult f g x l1 l2 H1 H2).
Qed.

Lemma smooth_opp (f : R -> R) (x : R) :
  smooth f x -> smooth (fun v => - f v) x.
Proof.
  intros [l Hl]. exists (- l). apply (derivable_pt_lim_opp f x l Hl).
Qed.

Lemma smooth_comp (f g : R -> R) (x : R) :
  smooth f x -> smooth g (f x) -> smooth (fun v => g (f v)) x.
Proof.
  intros [l1 H1] [l2 H2]. exists (l2 * l1).
  apply (derivable_pt_lim_comp f g x l1 l2 H1 H2).
Qed.

Lemma smooth_exp (f : R -> R) (x : R) :
  smooth f x -> smooth (fun v => exp (f v)) x.
Proof.
  intros Hf. apply (@smooth_comp f exp x Hf).
  exists (exp (f x)). apply derivable_pt_lim_exp.
Qed.

Lemma smooth_tanh (f : R -> R) (x : R) :
  smooth f x -> smooth (fun v => tanh (f v)) x.
Proof.
  intros Hf. apply (@smooth_comp f tanh x Hf).
  eexists.
  apply (derivable_pt_lim_div sinh cosh (f x) _ _
           (derivable_pt_lim_sinh (f x)) (derivable_pt_lim_cosh (f x))).
  unfold cosh. pose proof (exp_pos (f x)). pose proof (exp_pos (- f x)). lra.
Qed.

(** Sums of constants and of squares that vanish at [x] have derivative zero
    at [x]. *)
Lemma flat_const (c x : R) : derivable_pt_lim (fun _ => c) x 0.
Proof. apply derivable_pt_lim_const. Qed.

Lemma flat_plus (f g : R -> R) (x : R) :
  derivable_pt_lim f x 0 -> derivable_pt_lim g x 0 ->
  derivable_pt_lim (fun v => f v + g v) x 0.
Proof.
  intros Hf Hg. replace 0 with (0 + 0) by ring.
  apply (derivable_pt_lim_plus f g x 0 0 Hf Hg).
Qed.

(** The square of a function that vanishes at [x] has derivative zero there. *)
Lemma flat_square (h : R -> R) (x : R) :
  smooth h x -> h x = 0 -> derivable_pt_lim (fun v => h v * h v) x 0.
Proof.
  intros [l Hl] Hx. replace 0 with (l * h x + h x * l) by (rewrite Hx; ring).
  apply (derivable_pt_lim_mult h h x l l Hl Hl).
Qed.

Ltac smooth_tac :=
  repeat match goal with
         | |- smooth (fun _ => ?c) _ => apply smooth_const
         | |- smooth (fun v => v) _ => apply smooth_id
         | |- smooth (fun v => @?f v + @?g v) _ => apply (@smooth_plus f g)
         | |- smooth (fun v => @?f v - @?g v) _ => apply (@smooth_minus f g)
         | |- smooth (fun v => @?f v * @?g v) _ => apply (@smooth_mult f g)
         | |- smooth (fun v => - @?f v) _ => apply (@smooth_opp f)
         | |- smooth (fun v => exp (@?f v)) _ => apply (@smooth_exp f)
         | |- smooth (fun v => tanh (@?f v)) _ => apply (@smooth_tanh f)
         end.

Ltac flat_tac :=
  repeat match goal with
         | |- derivable_pt_lim (fun _ => ?c) _ _ => apply flat_const
         | |- derivable_pt_lim (fun v => @?f v + @?g v) _ _ =>
             apply (@flat_plus f g)
         | |- derivable_pt_lim (fun v => @?h v * @?h' v) _ _ =>
             apply (@flat_square h); [smooth_tac | cbv beta; ring]
         end.

(** On [fitted_ready] every squared difference of the loss vanishes at the
    variables' values and has a derivative in each of their entries: the
    gradient of the loss is zero there. *)
Lemma fitted_loss_gradient :
  is_gradient
    (fun vals =>
       self' <- assign_variables fitted_ready vals ;;
       @__loss R _ unit exact_tape self' demo_x fitted_u_0 demo_x fitted_u_1)
    [Mat [[1; -1]]; Vec [0; 0]; Vec [Q2R 0]; Vec [Q2R (-6)]]
    [Mat [[0; 0]]; Vec [0; 0]; Vec [0]; Vec [0]].
Proof.
  split; [reflexivity|].
  intros p i j (Hp & Hi & Hj).
  destruct p as [|[|[|[|p]]]]; simpl in Hp, Hi, Hj; try lia;
    assert (i = 0%nat) as -> by lia; simpl in Hj.
  all: try (destruct j as [|[|j]]; try lia).
  all: try (assert (j = 0%nat) as -> by lia).
  all: eexists; (split; [intros v;
                  cbv -[tanh exp Rminus Rplus Rmult Ropp Rinv Q2R IZR];
                  reflexivity|]);
       cbv -[tanh exp Rminus Rplus Rmult Ropp Rinv Q2R IZR derivable_pt_lim];
       flat_tac.
Qed.

(** C3 on the small instance, with a column of observed values for slice 0
    against a prediction of two columns, and on [fitted_ready] with the tape
    [exact_tape]. *)
Lemma grad_correct_witness :
  (exists (loss_value : R) (grads : list (tensor R)),
      __grad demo_ready demo_x demo_column demo_x demo_u
      = Ok (loss_value, grads))
  /\ exists (loss_value : R) (grads : list (tensor R)),
       @__grad R _ unit exact_tape fitted_ready
               demo_x fitted_u_0 demo_x fitted_u_1
       = Ok (loss_value, grads)
       /\ is_gradient
            (fun vals =>
               self' <- assign_variables fitted_ready vals ;;
               @__loss R _ unit exact_tape self'
                       demo_x fitted_u_0 demo_x fitted_u_1)
            [Mat [[1; -1]]; Vec [0; 0]; Vec [Q2R 0]; Vec [Q2R (-6)]] grads.
Proof.
  destruct grad_correct as (Hvalue & _ & Hgradient).
  split.
  - edestruct (Hvalue R _ unit constant_tape demo_ready
                 demo_x demo_column demo_x demo_u)
      with (n0 := 2%nat) (k0 := 2%nat) (m0 := 2%nat) (w0 := 1%nat)
           (n1 := 2%nat) (k1 := 2%nat) (m1 := 2%nat) (w1 := 2%nat)
      as (_ & _ & Hgrad);
      [reflexivity | reflexivity
      | shape_check | shape_check | unfold compatible; lia
      | unfold compatible; lia
      | shape_check | shape_check | unfold compatible; lia
      | unfold compatible; lia
      | reflexivity | reflexivity |].
    eexists. eexists. exact Hgrad.
  - assert ({p : R * list (tensor R)
            | @__grad R _ unit exact_tape fitted_ready
                      demo_x fitted_u_0 demo_x fitted_u_1 = Ok p})
      as [[loss_value grads] Hgrad].
    { unfold __grad.
      assert ({v : R | @__loss R _ unit exact_tape fitted_ready
                               demo_x fitted_u_0 demo_x fitted_u_1 = Ok v})
        as [v Hv] by (eexists; vm_compute; reflexivity).
      rewrite Hv. cbn [bind].
      change (__wrap_training_variables fitted_ready)
        with (Ok [Mat [[1; -1]]; Vec [0; 0]; Vec [Q2R 0]; Vec [Q2R (-6)]]).
      cbn [bind tape_gradient_vars exact_tape]. unfold exact_gradient.
      destruct (excluded_middle_informative _) as [Hex|Hno].
      - eexists. reflexivity.
      - exfalso. apply Hno. eexists. apply fitted_loss_gradient. }
    exists loss_value, grads. split; [exact Hgrad|].
    destruct (Hgradient unit exact_tape fitted_ready
                demo_x fitted_u_0 demo_x fitted_u_1
                (Vec [Q2R 0]) (Vec [Q2R (-6)]) loss_value grads
                exact_tape_lawful eq_refl eq_refl Hgrad)
      as (_ & _ & Hg & _).
    exact Hg.
Defined.

(** C4 on the small instance: two epochs. *)
Lemma fit_runs_E_epochs_witness :
  exists (s' t : PhysicsInformedNN R unit) (cs : list (call R)),
    fit demo_x demo_u demo_x demo_u 2 50 demo_pinn = (s', Ok tt)
    /\ calls s' = calls demo_pinn ++ cs
    /\ spec_training 2 demo_ready = Ok (t, cs)
    /\ same_state t s'
    /\ Z.of_nat (length (filter is_grad_call cs)) = 2%Z
    /\ Z.of_nat (length (filter is_apply_call cs)) = 2%Z.
Proof.
  assert ({s' : PhysicsInformedNN R unit
          | fit demo_x demo_u demo_x demo_u 2 50 demo_pinn = (s', Ok tt)})
    as [s' Hrun] by (eexists; vm_compute; reflexivity).
  destruct (@fit_runs_E_epochs R _ unit _ demo_x demo_u demo_x demo_u 2 50
              demo_pinn s' (Ok tt) ltac:(lia) Hrun)
    as (cs & Hcs & _ & Hok).
  destruct (Hok eq_refl) as ((t & Hspec & Hts) & _ & Hg & Ha & _).
  exists s', t, cs. split; [exact Hrun|]. split; [exact Hcs|].
  split; [exact Hspec|]. split; [exact Hts|].
  split; [exact Hg | exact Ha].
Defined.

End ConcreteGradient.
